(** * log.io server: wire parser, message router and input registry

    A shallow embedding of [src/server/src/logger.ts] (the part of the file
    that holds the server: [handleNewMessage], [handleRegisterInput],
    [handleDeregisterInput], [messageHandlers] and [broadcastMessage]),
    together with the properties its specification states about them.

    JavaScript strings are sequences of UTF-16 code units, arrays are lists,
    a value that may be [undefined] is a [Value], and the calls the server
    makes on its collaborators ([inputs], [io], [logger]) are recorded, in
    the order in which they happen, in the trace of a [World]. *)

From Stdlib Require Import String Ascii List NArith ZArith Bool Lia.
Import ListNotations.

Set Implicit Arguments.

(** ** JavaScript strings, arrays and values *)

Module JS.

(** A string is the list of its UTF-16 code units. *)
Definition jsstring := list N.

(** A string literal of the source (all of them are ASCII). *)
Definition lit (s : string) : jsstring :=
  map N_of_ascii (list_ascii_of_string s).

Arguments lit : simpl never.

(** ['\0'], the message terminator, and ['|'], the field separator. *)
Definition NUL : N := 0%N.
Definition BAR : N := 124%N.

Fixpoint eqb (s t : jsstring) : bool :=
  match s, t with
  | [], [] => true
  | c :: s', d :: t' => N.eqb c d && eqb s' t'
  | _, _ => false
  end.

(** A string, or [undefined]. *)
Inductive Value :=
| Undefined
| Str (s : jsstring).

Definition value_eqb (v w : Value) : bool :=
  match v, w with
  | Undefined, Undefined => true
  | Str s, Str t => eqb s t
  | _, _ => false
  end.

(** [ToString], as applied by a template literal and by a property key. *)
Definition toString (v : Value) : jsstring :=
  match v with
  | Undefined => lit "undefined"
  | Str s => s
  end.

(** An object literal: its keys, in the order written, with their values. *)
Definition JSObject := list (string * Value).

Definition prop (o : JSObject) (key : string) : Value :=
  match find (fun kv => String.eqb (fst kv) key) o with
  | Some kv => snd kv
  | None => Undefined
  end.

Definition keys (o : JSObject) : list string := map fst o.

(** [s.split(sep)] for a separator of one code unit. *)
Fixpoint split (sep : N) (s : jsstring) : list jsstring :=
  match s with
  | [] => [[]]
  | c :: s' =>
      if N.eqb c sep then [] :: split sep s'
      else match split sep s' with
           | [] => [[c]]
           | piece :: pieces => (c :: piece) :: pieces
           end
  end.

(** [a.join(sep)] for an array of strings. *)
Fixpoint join (sep : N) (a : list jsstring) : jsstring :=
  match a with
  | [] => []
  | [s] => s
  | s :: a' => s ++ sep :: join sep a'
  end.

(** The relative index of [Array.prototype.slice]: a negative index counts
    from the end, and both ends are clamped to the array. *)
Definition relativeIndex (len i : Z) : Z :=
  if (i <? 0)%Z then Z.max (len + i) 0 else Z.min i len.

(** [a.slice(start, end)]; [end] is [None] when it is left out. *)
Definition slice {A} (start : Z) (end_ : option Z) (a : list A) : list A :=
  let len := Z.of_nat (length a) in
  let k := relativeIndex len start in
  let final := match end_ with
               | None => len
               | Some e => relativeIndex len e
               end in
  firstn (Z.to_nat (final - k)) (skipn (Z.to_nat k) a).

(** [a[i]], which is [undefined] past the end of the array; array
    destructuring reads its variables this way. *)
Definition item (a : list jsstring) (i : nat) : Value :=
  match nth_error a i with
  | Some s => Str s
  | None => Undefined
  end.

(** The code units that [trim] strips: WhiteSpace and LineTerminator of
    ECMAScript (TAB, LF, VT, FF, CR, SP, NBSP, U+1680, U+2000..U+200A,
    U+2028, U+2029, U+202F, U+205F, U+3000 and U+FEFF). *)
Definition isWhiteSpace (c : N) : bool :=
  ((9 <=? c) && (c <=? 13) || (c =? 32) || (c =? 160) || (c =? 5760)
   || (8192 <=? c) && (c <=? 8202) || (c =? 8232) || (c =? 8233)
   || (c =? 8239) || (c =? 8287) || (c =? 12288) || (c =? 65279))%N.

Fixpoint trimStart (s : jsstring) : jsstring :=
  match s with
  | [] => []
  | c :: s' => if isWhiteSpace c then trimStart s' else s
  end.

Definition trimEnd (s : jsstring) : jsstring := rev (trimStart (rev s)).

Definition trim (s : jsstring) : jsstring := trimEnd (trimStart s).

(** [!!s] for a string: only the empty string is falsy. *)
Definition truthy (s : jsstring) : bool :=
  match s with
  | [] => false
  | _ :: _ => true
  end.

End JS.

Import JS.

(** ** The input registry *)

Module InputRegistry.

(** Modelled from the spec: the class [InputRegistry] of [./inputs], which
    the server imports and whose source is not at hand.  An Input is a
    (stream, source) pair with the channel identifier derived from it; the
    registry is keyed by the pair and lists its Inputs in registration
    order. *)
Record Input := mkInput {
  stream : Value;
  source : Value;
  channelId : jsstring
}.

Definition t := list Input.

Definition empty : t := [].

Definition samePair (stream0 source0 : Value) (i : Input) : bool :=
  value_eqb (stream i) stream0 && value_eqb (source i) source0.

Definition lookup (stream0 source0 : Value) (r : t) : option Input :=
  find (samePair stream0 source0) r.

Section Derivation.

(** Modelled from the spec: the channel identifier is "a deterministic
    function of (stream, source)"; which function is left open. *)
Variable deriveChannelId : Value -> Value -> jsstring.

(** Modelled from the spec: [add(stream, source) -> channelId] stores a
    new Input for an unseen pair and returns the existing channel
    identifier of a pair that is present. *)
Definition add (stream0 source0 : Value) (r : t) : jsstring * t :=
  match lookup stream0 source0 r with
  | Some i => (channelId i, r)
  | None =>
      let id := deriveChannelId stream0 source0 in
      (id, r ++ [mkInput stream0 source0 id])
  end.

(** Modelled from the spec: [remove(stream, source) -> channelId] deletes
    the Input of the pair and returns its former channel identifier; for
    a pair that is not registered it derives the identifier and leaves
    the registry alone. *)
Definition remove (stream0 source0 : Value) (r : t) : jsstring * t :=
  match lookup stream0 source0 r with
  | Some i =>
      (channelId i, filter (fun j => negb (samePair stream0 source0 j)) r)
  | None => (deriveChannelId stream0 source0, r)
  end.

(** The registries a server can hold: the empty one of [new
    InputRegistry()], changed by [add] and [remove] only. *)
Inductive reachable : t -> Prop :=
| reachable_empty : reachable empty
| reachable_add stream0 source0 r :
    reachable r -> reachable (snd (add stream0 source0 r))
| reachable_remove stream0 source0 r :
    reachable r -> reachable (snd (remove stream0 source0 r)).

(** Every Input carries the identifier derived from its pair. *)
Definition derived (r : t) : Prop :=
  Forall (fun i => channelId i = deriveChannelId (stream i) (source i)) r.

End Derivation.

(** Modelled from the spec: [list()], which the server calls
    [getInputs()]. *)
Definition getInputs (r : t) : list Input := r.

(** The pairs (stream, source) of the registered Inputs. *)
Definition pairs (r : t) : list (Value * Value) :=
  map (fun i => (stream i, source i)) (getInputs r).

End InputRegistry.

(** ** The server *)

(** What the server does to its collaborators, one entry per call. *)
Inductive Effect :=
| InputsAdd (stream source : Value)         (* inputs.add(stream, source) *)
| InputsRemove (stream source : Value)      (* inputs.remove(stream, source) *)
| EmitTo (room : jsstring) (event : Value) (payload : JSObject)
                                        (* io.to(room).emit(event, payload) *)
| EmitAll (event : Value) (payload : JSObject)     (* io.emit(event, payload) *)
| LoggerError (text : jsstring)             (* logger.error(text) *)
| LoggerDebug (text : jsstring).            (* logger.debug(text) *)

(** The registry object [inputs] and the calls made so far, oldest first. *)
Record World := mkWorld {
  inputs : InputRegistry.t;
  trace : list Effect
}.

(** A computation that reads and updates the world. *)
Definition M (A : Type) : Type := World -> A * World.

Definition ret {A} (a : A) : M A := fun w => (a, w).

Definition bind {A B} (m : M A) (k : A -> M B) : M B :=
  fun w => let (a, w') := m w in k a w'.

Declare Scope server_scope.
Delimit Scope server_scope with server.
Notation "x <- m ;; k" := (bind m (fun x => k))
  (at level 61, m at next level, right associativity) : server_scope.
Notation "m ;; k" := (bind m (fun _ => k))
  (at level 61, right associativity) : server_scope.
Local Open Scope server_scope.

Definition perform (e : Effect) : M unit :=
  fun w => (tt, mkWorld (inputs w) (trace w ++ [e])).

Definition when (b : bool) (m : M unit) : M unit :=
  if b then m else ret tt.

(** [msgs.forEach(f)]: the results (here, the promises) are discarded. *)
Fixpoint forEach {A B} (f : A -> M B) (a : list A) : M unit :=
  match a with
  | [] => ret tt
  | x :: a' => f x ;; forEach f a'
  end.

(** The part of [ServerConfig] that the router reads. *)
Record ServerConfig := mkConfig { debug : bool }.

(** How the promise of an [async] call settles. *)
Inductive Settled := Fulfilled | Rejected.

(** A buffer is given by the text [data.toString()] decodes it to. *)
Definition Buffer := jsstring.
Definition Buffer_toString (data : Buffer) : jsstring := data.

Section Server.

Variable deriveChannelId : Value -> Value -> jsstring.

Definition inputs_add (stream source : Value) : M jsstring :=
  fun w =>
    let (inputName, r) :=
      InputRegistry.add deriveChannelId stream source (inputs w) in
    (inputName, mkWorld r (trace w ++ [InputsAdd stream source])).

Definition inputs_remove (stream source : Value) : M jsstring :=
  fun w =>
    let (inputName, r) :=
      InputRegistry.remove deriveChannelId stream source (inputs w) in
    (inputName, mkWorld r (trace w ++ [InputsRemove stream source])).

Definition io_to_emit (room : jsstring) (event : Value) (payload : JSObject)
  : M unit := perform (EmitTo room event payload).

Definition io_emit (event : Value) (payload : JSObject) : M unit :=
  perform (EmitAll event payload).

Definition logger_error (text : jsstring) : M unit :=
  perform (LoggerError text).

Definition logger_debug (text : jsstring) : M unit :=
  perform (LoggerDebug text).

(** Broadcast an inbound message to socket.io channels. *)
Definition handleNewMessage (config : ServerConfig) (msgParts : list jsstring)
  : M unit :=
  let parts := slice 0 (Some 3%Z) msgParts in
  let mtype := item parts 0 in
  let stream := item parts 1 in
  let source := item parts 2 in
  let msg := join BAR (slice 3 None msgParts) in
  inputName <- inputs_add stream source ;;
  io_to_emit inputName mtype
    [("inputName", Str inputName); ("msg", Str msg);
     ("stream", stream); ("source", source)]%string ;;
  io_emit (Str (lit "+ping"))
    [("inputName", Str inputName); ("stream", stream);
     ("source", source)]%string ;;
  when (debug config) (logger_debug (join BAR msgParts)).

(** Broadcast a new input coming online to all browsers. *)
Definition handleRegisterInput (config : ServerConfig)
  (msgParts : list jsstring) : M unit :=
  let parts := slice 0 (Some 3%Z) msgParts in
  let mtype := item parts 0 in
  let stream := item parts 1 in
  let source := item parts 2 in
  inputName <- inputs_add stream source ;;
  io_emit mtype
    [("stream", stream); ("source", source);
     ("inputName", Str inputName)]%string.

(** Broadcast an input going offline to all browsers. *)
Definition handleDeregisterInput (config : ServerConfig)
  (msgParts : list jsstring) : M unit :=
  let parts := slice 0 (Some 3%Z) msgParts in
  let mtype := item parts 0 in
  let stream := item parts 1 in
  let source := item parts 2 in
  inputName <- inputs_remove stream source ;;
  io_emit mtype
    [("stream", stream); ("source", source);
     ("inputName", Str inputName)]%string.

Definition MessageHandler := ServerConfig -> list jsstring -> M unit.

(** Maps TCP message prefix to handler function: the own properties of the
    object literal [messageHandlers]. *)
Definition messageHandlers : list (jsstring * MessageHandler) :=
  [(lit "+msg", handleNewMessage);
   (lit "+input", handleRegisterInput);
   (lit "-input", handleDeregisterInput)].

(** [messageHandlers] is an object literal, so a property it does not own
    is looked up on [Object.prototype].  Each member is listed with the
    way a call of it settles when it is called as the router calls a
    handler, [messageHandler(config, inputs, io, msgParts)], a plain call
    whose [this] is [undefined]: [Object(config, ...)] and [toString()]
    return, the others throw a TypeError ([__proto__] is an object, not a
    function; the rest need a [this]).  None of them touches [inputs],
    [io] or [logger]. *)
Definition objectPrototype : list (jsstring * Settled) :=
  [(lit "constructor", Fulfilled);
   (lit "toString", Fulfilled);
   (lit "toLocaleString", Rejected);
   (lit "valueOf", Rejected);
   (lit "hasOwnProperty", Rejected);
   (lit "isPrototypeOf", Rejected);
   (lit "propertyIsEnumerable", Rejected);
   (lit "__defineGetter__", Rejected);
   (lit "__defineSetter__", Rejected);
   (lit "__lookupGetter__", Rejected);
   (lit "__lookupSetter__", Rejected);
   (lit "__proto__", Rejected)].

(** What [messageHandlers[key]] evaluates to; [None] is [undefined]. *)
Inductive Member :=
| Own (handler : MessageHandler)
| Inherited (call : Settled).

Definition assoc {A} (key : jsstring) (table : list (jsstring * A))
  : option A :=
  match find (fun kv => JS.eqb (fst kv) key) table with
  | Some kv => Some (snd kv)
  | None => None
  end.

Definition getMessageHandler (key : Value) : option Member :=
  match assoc (toString key) messageHandlers with
  | Some handler => Some (Own handler)
  | None =>
      match assoc (toString key) objectPrototype with
      | Some call => Some (Inherited call)
      | None => None
      end
  end.

(** The callback that [broadcastMessage] runs on each message.  It is an
    [async] function whose only [await] is its last step, and the handlers
    contain no [await], so a call of it runs to its end before [forEach]
    moves on: the messages of a chunk are processed one after the other.
    The result is how the promise of the call settles. *)
Definition processMessage (config : ServerConfig) (msg : jsstring)
  : M Settled :=
  let msgParts := split BAR msg in
  match getMessageHandler (item msgParts 0) with
  | Some (Own messageHandler) =>
      messageHandler config msgParts ;; ret Fulfilled
  | Some (Inherited call) => ret call
  | None =>
      logger_error
        (lit "Unknown message type: " ++ toString (item msgParts 0)) ;;
      ret Fulfilled
  end.

(** Parse raw message into parts: the messages of a chunk. *)
Definition parseMessages (data : Buffer) : list jsstring :=
  filter (fun msg => truthy (trim msg))
    (slice 0 (Some (-1)%Z) (split NUL (Buffer_toString data))).

(** Broadcast an inbound message to socket.io channels. *)
Definition broadcastMessage (config : ServerConfig) (data : Buffer)
  : M unit :=
  let msgs := parseMessages data in
  forEach (processMessage config) msgs.

End Server.

(** ** What is observed of the server *)

(** The objects that the handlers emit. *)
Definition messageObject (inputName msg : jsstring) (stream source : Value)
  : JSObject :=
  [("inputName", Str inputName); ("msg", Str msg);
   ("stream", stream); ("source", source)]%string.

Definition pingObject (inputName : jsstring) (stream source : Value)
  : JSObject :=
  [("inputName", Str inputName); ("stream", stream);
   ("source", source)]%string.

Definition inputObject (stream source : Value) (inputName : jsstring)
  : JSObject :=
  [("stream", stream); ("source", source);
   ("inputName", Str inputName)]%string.

(** The tags that own a handler, and the names [messageHandlers] inherits. *)
Definition handlerTags : list jsstring :=
  [lit "+msg"; lit "+input"; lit "-input"].

Definition inheritedNames : list jsstring :=
  Eval cbv in map fst objectPrototype.

(** A tag that is no property of [messageHandlers], own or inherited. *)
Definition unknownTag (tag : jsstring) : Prop :=
  ~ In tag handlerTags /\ ~ In tag inheritedNames.

(** A segment that is empty or only whitespace. *)
Definition onlyWhiteSpace (s : jsstring) : bool := forallb isWhiteSpace s.

(** The object an emit call passes on. *)
Definition payloadOf (e : Effect) : JSObject :=
  match e with
  | EmitTo _ _ payload | EmitAll _ payload => payload
  | _ => []
  end.

(** Membership tests that compute. *)
Definition mem (s : jsstring) (l : list jsstring) : bool :=
  existsb (JS.eqb s) l.

Definition lacks (sep : N) (p : jsstring) : bool :=
  negb (existsb (N.eqb sep) p).

(** *** Viewers *)

(** Modelled from the spec: the Broadcast Sink (socket.io, a collaborator
    outside the repository).  An event emitted to a channel reaches the
    viewers that joined the channel, an event emitted to all reaches every
    connected viewer. *)
Record Viewer := mkViewer { rooms : list jsstring }.

Definition subscribed (v : Viewer) (room : jsstring) : bool :=
  existsb (JS.eqb room) (rooms v).

Definition delivered (v : Viewer) (e : Effect) : list (Value * JSObject) :=
  match e with
  | EmitTo room event payload =>
      if subscribed v room then [(event, payload)] else []
  | EmitAll event payload => [(event, payload)]
  | _ => []
  end.

(** The events a viewer receives from a run of effects, in order. *)
Definition received (v : Viewer) (effects : list Effect)
  : list (Value * JSObject) :=
  flat_map (delivered v) effects.

Definition isLoggerCall (e : Effect) : bool :=
  match e with
  | LoggerError _ | LoggerDebug _ => true
  | _ => false
  end.

Definition isRegistryCall (e : Effect) : bool :=
  match e with
  | InputsAdd _ _ | InputsRemove _ _ => true
  | _ => false
  end.

Definition isEmit (e : Effect) : bool :=
  match e with
  | EmitTo _ _ _ | EmitAll _ _ => true
  | _ => false
  end.

(** A segment is skipped when processing it settles without an error,
    leaves the registry as it is, and calls nothing but the logger. *)
Definition skips (deriveChannelId : Value -> Value -> jsstring)
  (config : ServerConfig) (msg : jsstring) (w : World) : Prop :=
  exists log,
    processMessage deriveChannelId config msg w
      = (Fulfilled, mkWorld (inputs w) (trace w ++ log)) /\
    forallb isLoggerCall log = true.

(** ** The adapters of [main] *)

(** The surrogate code units of UTF-16. *)
Definition isHighSurrogate (c : N) : bool := ((55296 <=? c) && (c <=? 56319))%N.
Definition isLowSurrogate (c : N) : bool := ((56320 <=? c) && (c <=? 57343))%N.

(** What a string is once it went through UTF-8 and back: a surrogate that
    is not part of a pair comes back as U+FFFD, everything else as it was. *)
Fixpoint toWellFormed (s : jsstring) : jsstring :=
  match s with
  | [] => []
  | c :: s' =>
      if isHighSurrogate c then
        match s' with
        | d :: s'' =>
            if isLowSurrogate d then c :: d :: toWellFormed s''
            else 65533%N :: toWellFormed s'
        | [] => [65533%N]
        end
      else if isLowSurrogate c then 65533%N :: toWellFormed s'
      else c :: toWellFormed s'
  end.

(** [Buffer.from(text, 'utf-8')], given as every buffer by the text it
    decodes to. *)
Definition Buffer_from (text : jsstring) : Buffer := toWellFormed text.

Section Adapters.

Variable deriveChannelId : Value -> Value -> jsstring.

(** The listener of [syslogServer.on('message', ...)]; [message] is
    [value.message]. *)
Definition onSyslogMessage (config : ServerConfig) (message : Value)
  : M unit :=
  broadcastMessage deriveChannelId config
    (Buffer_from
       (lit "+msg|syslog|localhost|" ++ toString message ++ [NUL])).

(** The listener of [socket.on('data', ...)] of the TCP message server,
    run on the chunks of the connections in their order of arrival. *)
Definition onData (config : ServerConfig) (chunks : list Buffer) : M unit :=
  forEach (broadcastMessage deriveChannelId config) chunks.

End Adapters.

(** The first step of the listener of [io.on('connection', ...)]: what
    [inputs.getInputs().forEach((input) => socket.emit('+input', input))]
    emits to the socket of the new browser. *)
Definition replayInputs (r : InputRegistry.t)
  : list (Value * InputRegistry.Input) :=
  map (fun input => (Str (lit "+input"), input)) (InputRegistry.getInputs r).

(** Modelled after socket.io: the rooms of a socket are a set, [join] adds
    a room and [leave] takes it out. *)
Definition socket_join (v : Viewer) (room : jsstring) : Viewer :=
  if subscribed v room then v else mkViewer (room :: rooms v).

Definition socket_leave (v : Viewer) (room : jsstring) : Viewer :=
  mkViewer (filter (fun r => negb (JS.eqb room r)) (rooms v)).

(** The listeners of ['+activate'] and ['-activate']. *)
Definition onActivate (v : Viewer) (inputName : jsstring) : Viewer :=
  socket_join v inputName.

Definition onDeactivate (v : Viewer) (inputName : jsstring) : Viewer :=
  socket_leave v inputName.

(** An emit call of the protocol: a room is sent ['+msg'] events only, each
    under the channel identifier its object carries, and all browsers are
    sent ['+ping'], ['+input'] and ['-input'] events only. *)
Definition protocolEmit (e : Effect) : bool :=
  match e with
  | EmitTo room event payload =>
      value_eqb event (Str (lit "+msg"))
      && value_eqb (prop payload "inputName") (Str room)
  | EmitAll (Str event) _ =>
      mem event [lit "+ping"; lit "+input"; lit "-input"]
  | EmitAll Undefined _ => false
  | _ => true
  end.

Definition isLoggerDebug (e : Effect) : bool :=
  match e with
  | LoggerDebug _ => true
  | _ => false
  end.

(** A chunk of terminators and whitespace only. *)
Definition blankChunk (text : jsstring) : bool :=
  forallb (fun c => isWhiteSpace c || N.eqb c NUL) text.

(** ** Concrete runs *)

(** The chunk of the specification's trailing-fragment example,
    ["+msg|a|b|hello\0+msg|a|b|world"]. *)
Definition helloWorldChunk : Buffer :=
  lit "+msg|a|b|hello" ++ NUL :: lit "+msg|a|b|world".

(** One derivation of the channel identifier, to run the server on concrete
    chunks: stream and source joined by ['|']. *)
Definition pairChannelId (stream source : Value) : jsstring :=
  toString stream ++ BAR :: toString source.

Definition emptyWorld : World := mkWorld InputRegistry.empty [].

(** The server is run with channel identifiers derived by [pairChannelId],
    without debug logging, from the empty world. *)
Definition quiet : ServerConfig := mkConfig false.

Definition appStream : Value := Str (lit "app").
Definition host1Source : Value := Str (lit "host1").

Definition appHost1 : InputRegistry.Input :=
  InputRegistry.mkInput appStream host1Source (lit "app|host1").

(** ** Facts about strings and arrays *)

Section StringFacts.

Lemma eqb_eq (s t : jsstring) : JS.eqb s t = true <-> s = t.
Proof.
  revert t. induction s as [|c s IH]; intros [|d t]; simpl;
    try (split; [discriminate | congruence]); try tauto.
  rewrite andb_true_iff, N.eqb_eq, IH. split.
  - intros [-> ->]. reflexivity.
  - intros H. injection H as -> ->. auto.
Qed.

Lemma eqb_refl (s : jsstring) : JS.eqb s s = true.
Proof. apply eqb_eq. reflexivity. Qed.

Lemma eqb_neq (s t : jsstring) : JS.eqb s t = false <-> s <> t.
Proof.
  rewrite <- eqb_eq. destruct (JS.eqb s t); split; congruence.
Qed.

Lemma value_eqb_eq (v w : Value) : value_eqb v w = true <-> v = w.
Proof.
  destruct v as [|s], w as [|t]; simpl;
    try (split; [discriminate | congruence]); try tauto.
  rewrite eqb_eq. split; congruence.
Qed.

Lemma value_eqb_refl (v : Value) : value_eqb v v = true.
Proof. apply value_eqb_eq. reflexivity. Qed.

(** *** [split] and [join] *)

Lemma split_not_nil (sep : N) (s : jsstring) : split sep s <> [].
Proof.
  destruct s as [|c s]; simpl; [discriminate|].
  destruct (N.eqb c sep); [discriminate|].
  destruct (split sep s); discriminate.
Qed.

Lemma split_cons_sep (sep : N) (s : jsstring) :
  split sep (sep :: s) = [] :: split sep s.
Proof. simpl. rewrite N.eqb_refl. reflexivity. Qed.

Lemma split_cons_other (sep c : N) (s : jsstring) :
  c <> sep ->
  exists piece pieces,
    split sep s = piece :: pieces /\
    split sep (c :: s) = (c :: piece) :: pieces.
Proof.
  intros Hc. simpl. apply N.eqb_neq in Hc. rewrite Hc.
  destruct (split sep s) as [|piece pieces] eqn:E.
  - exfalso. exact (split_not_nil _ _ E).
  - exists piece, pieces. auto.
Qed.

(** A piece that holds no separator is split off whole. *)
Lemma split_app_sep (sep : N) (p s : jsstring) :
  ~ In sep p -> split sep (p ++ sep :: s) = p :: split sep s.
Proof.
  induction p as [|c p IH]; intros Hp.
  - apply split_cons_sep.
  - assert (Hc : c <> sep) by (intros ->; apply Hp; left; reflexivity).
    assert (Hp' : ~ In sep p) by (intros H; apply Hp; right; exact H).
    destruct (split_cons_other (p ++ sep :: s) Hc) as (q & qs & E1 & E2).
    simpl app. rewrite E2. rewrite (IH Hp') in E1.
    injection E1 as <- <-. reflexivity.
Qed.

Lemma split_no_sep (sep : N) (p : jsstring) :
  ~ In sep p -> split sep p = [p].
Proof.
  induction p as [|c p IH]; intros Hp; [reflexivity|].
  assert (Hc : c <> sep) by (intros ->; apply Hp; left; reflexivity).
  assert (Hp' : ~ In sep p) by (intros H; apply Hp; right; exact H).
  destruct (split_cons_other p Hc) as (q & qs & E1 & E2).
  rewrite E2. rewrite (IH Hp') in E1. injection E1 as <- <-. reflexivity.
Qed.

Lemma join_cons (sep : N) (p : jsstring) (ps : list jsstring) :
  ps <> [] -> join sep (p :: ps) = p ++ sep :: join sep ps.
Proof. destruct ps; [congruence | reflexivity]. Qed.

(** Joining the pieces gives the string back. *)
Lemma join_split (sep : N) (s : jsstring) : join sep (split sep s) = s.
Proof.
  induction s as [|c s IH]; [reflexivity|].
  destruct (N.eq_dec c sep) as [->|Hc].
  - rewrite split_cons_sep, join_cons by apply split_not_nil.
    rewrite IH. reflexivity.
  - destruct (split_cons_other s Hc) as (q & qs & E1 & E2).
    rewrite E2. rewrite E1 in IH. destruct qs as [|q' qs].
    + simpl in *. congruence.
    + rewrite join_cons in * by discriminate.
      simpl. simpl in IH. rewrite IH. reflexivity.
Qed.

(** No piece holds the separator. *)
Lemma split_pieces (sep : N) (s : jsstring) :
  Forall (fun p => ~ In sep p) (split sep s).
Proof.
  induction s as [|c s IH].
  - constructor; [intros [] | constructor].
  - destruct (N.eq_dec c sep) as [->|Hc].
    + rewrite split_cons_sep. constructor; [intros [] | exact IH].
    + destruct (split_cons_other s Hc) as (q & qs & E1 & E2).
      rewrite E2. rewrite E1 in IH. inversion IH as [|? ? Hq Hqs]; subst.
      constructor; [|exact Hqs].
      intros [H|H]; [congruence | exact (Hq H)].
Qed.

(** The pieces are the only way to cut the string at its separators. *)
Lemma split_join (sep : N) (ps : list jsstring) :
  ps <> [] -> Forall (fun p => ~ In sep p) ps ->
  split sep (join sep ps) = ps.
Proof.
  induction ps as [|p ps IH]; intros Hne Hall; [congruence|].
  inversion Hall as [|? ? Hp Hps]; subst.
  destruct ps as [|p' ps].
  - simpl. apply split_no_sep. exact Hp.
  - rewrite join_cons by discriminate.
    rewrite split_app_sep by exact Hp.
    rewrite IH; [reflexivity | discriminate | exact Hps].
Qed.

(** *** [slice] *)

Lemma slice_first (A : Type) (n : nat) (a : list A) :
  slice 0 (Some (Z.of_nat n)) a = firstn n a.
Proof.
  unfold slice, relativeIndex. simpl.
  destruct (Z.of_nat n <? 0)%Z eqn:E; [apply Z.ltb_lt in E; lia|].
  replace (Z.min 0 (Z.of_nat (length a))) with 0%Z by lia.
  simpl. rewrite Z.sub_0_r.
  destruct (Nat.le_gt_cases n (length a)) as [H|H].
  - rewrite Z.min_l by lia. rewrite Nat2Z.id. reflexivity.
  - rewrite Z.min_r by lia. rewrite Nat2Z.id.
    rewrite !firstn_all2 by lia. reflexivity.
Qed.

Lemma slice_from (A : Type) (n : nat) (a : list A) :
  slice (Z.of_nat n) None a = skipn n a.
Proof.
  unfold slice, relativeIndex.
  destruct (Z.of_nat n <? 0)%Z eqn:E; [apply Z.ltb_lt in E; lia|].
  destruct (Nat.le_gt_cases n (length a)) as [H|H].
  - rewrite Z.min_l by lia. rewrite Nat2Z.id.
    apply firstn_all2. rewrite length_skipn. lia.
  - rewrite Z.min_r by lia. rewrite Nat2Z.id.
    rewrite !skipn_all2 by lia. apply firstn_nil.
Qed.

(** [a.slice(0, -1)] is [a] without its last element. *)
Lemma slice_init (A : Type) (a : list A) (x : A) :
  slice 0 (Some (-1)%Z) (a ++ [x]) = a.
Proof.
  unfold slice, relativeIndex. simpl.
  rewrite length_app. simpl.
  replace (Z.min 0 (Z.of_nat (length a + 1))) with 0%Z by lia.
  rewrite Z.max_l by lia. simpl.
  replace (Z.to_nat (Z.of_nat (length a + 1) + -1 - 0)) with (length a) by lia.
  rewrite firstn_app, firstn_all, Nat.sub_diag. simpl. apply app_nil_r.
Qed.

(** *** [trim] *)

Lemma trimStart_nil (s : jsstring) :
  trimStart s = [] <-> onlyWhiteSpace s = true.
Proof.
  induction s as [|c s IH]; simpl; [tauto|].
  destruct (isWhiteSpace c); simpl; [exact IH|].
  split; discriminate.
Qed.

Lemma trimStart_head (s : jsstring) (c : N) (s' : jsstring) :
  trimStart s = c :: s' -> isWhiteSpace c = false.
Proof.
  induction s as [|d s IH]; simpl; [discriminate|].
  destruct (isWhiteSpace d) eqn:E; [exact IH|].
  intros H. injection H as <- <-. exact E.
Qed.

(** [!!s.trim()] is false exactly when [s] is empty or only whitespace. *)
Lemma truthy_trim (s : jsstring) :
  truthy (trim s) = negb (onlyWhiteSpace s).
Proof.
  unfold trim, trimEnd.
  destruct (trimStart s) as [|c s'] eqn:E.
  - apply trimStart_nil in E. rewrite E. reflexivity.
  - assert (Hs : onlyWhiteSpace s = false).
    { destruct (onlyWhiteSpace s) eqn:F; [|reflexivity].
      apply trimStart_nil in F. congruence. }
    rewrite Hs. simpl negb.
    assert (Hc := trimStart_head _ E).
    destruct (trimStart (rev (c :: s'))) as [|d t] eqn:F.
    + apply trimStart_nil in F. unfold onlyWhiteSpace in F.
      simpl in F. rewrite forallb_app in F. simpl in F.
      rewrite Hc in F. rewrite andb_false_r in F. discriminate.
    + simpl. destruct (rev t ++ [d]) eqn:G; [|reflexivity].
      destruct (rev t); discriminate.
Qed.

End StringFacts.

(** ** The registry keeps one Input per pair *)

Module RegistryFacts.
Import InputRegistry.

Lemma samePair_true stream0 source0 i :
  samePair stream0 source0 i = true <->
  (stream i, source i) = (stream0, source0).
Proof.
  unfold samePair. rewrite andb_true_iff, !value_eqb_eq.
  split; [intros [-> ->]; reflexivity | intros H; injection H; auto].
Qed.

Lemma lookup_None stream0 source0 r :
  lookup stream0 source0 r = None <-> ~ In (stream0, source0) (pairs r).
Proof.
  unfold lookup, pairs, getInputs. induction r as [|i r IH]; simpl.
  - tauto.
  - destruct (samePair stream0 source0 i) eqn:E.
    + apply samePair_true in E. split; [discriminate|].
      intros H. exfalso. apply H. left. exact E.
    + rewrite IH. split.
      * intros H [F|F]; [|exact (H F)].
        apply samePair_true in F. congruence.
      * intros H F. apply H. right. exact F.
Qed.

Lemma lookup_Some stream0 source0 r i :
  lookup stream0 source0 r = Some i ->
  In i r /\ stream i = stream0 /\ source i = source0.
Proof.
  unfold lookup. intros H. apply find_some in H. destruct H as [Hin H].
  apply samePair_true in H. injection H as H1 H2. auto.
Qed.

Lemma pairs_app r r' : pairs (r ++ r') = pairs r ++ pairs r'.
Proof. apply map_app. Qed.

Lemma pairs_filter_In p (f : Input -> bool) r :
  In p (pairs (filter f r)) -> In p (pairs r).
Proof.
  unfold pairs, getInputs. rewrite !in_map_iff.
  intros (i & Hi & Hin). apply filter_In in Hin.
  exists i. tauto.
Qed.

Lemma pairs_filter_NoDup (f : Input -> bool) r :
  NoDup (pairs r) -> NoDup (pairs (filter f r)).
Proof.
  induction r as [|i r IH]; simpl; intros H; [constructor|].
  inversion H as [|? ? Hi Hr]; subst.
  destruct (f i); simpl; [|exact (IH Hr)].
  constructor; [|exact (IH Hr)].
  intros F. apply Hi. exact (pairs_filter_In _ _ _ F).
Qed.

(** With one Input per pair, the Inputs of a registered pair are one. *)
Lemma one_Input stream0 source0 r i :
  NoDup (pairs r) -> lookup stream0 source0 r = Some i ->
  filter (samePair stream0 source0) (getInputs r) = [i].
Proof.
  unfold lookup, getInputs. induction r as [|j r IH]; simpl;
    intros Hnd Hl; [discriminate|].
  inversion Hnd as [|? ? Hj Hr]; subst.
  destruct (samePair stream0 source0 j) eqn:E.
  - injection Hl as Hl. subst j. f_equal.
    apply samePair_true in E.
    destruct (filter (samePair stream0 source0) r) as [|k ks] eqn:F;
      [reflexivity|].
    exfalso. assert (Hk : In k (filter (samePair stream0 source0) r))
      by (rewrite F; left; reflexivity).
    apply filter_In in Hk. destruct Hk as [Hk1 Hk2].
    apply samePair_true in Hk2. apply Hj. rewrite E, <- Hk2.
    unfold pairs, getInputs. apply in_map_iff. exists k. auto.
  - apply IH; assumption.
Qed.

Section Derivation.

Variable deriveChannelId : Value -> Value -> jsstring.

Lemma add_NoDup stream0 source0 r :
  NoDup (pairs r) ->
  NoDup (pairs (snd (add deriveChannelId stream0 source0 r))).
Proof.
  intros H. unfold add.
  destruct (lookup stream0 source0 r) eqn:E; simpl; [exact H|].
  apply lookup_None in E. rewrite pairs_app.
  apply NoDup_app; [exact H | |].
  - constructor; [intros [] | constructor].
  - intros p Hp [<-|[]]. exact (E Hp).
Qed.

Lemma remove_NoDup stream0 source0 r :
  NoDup (pairs r) ->
  NoDup (pairs (snd (remove deriveChannelId stream0 source0 r))).
Proof.
  intros H. unfold remove.
  destruct (lookup stream0 source0 r); simpl; [|exact H].
  apply pairs_filter_NoDup. exact H.
Qed.

Lemma reachable_NoDup r : reachable deriveChannelId r -> NoDup (pairs r).
Proof.
  induction 1; [constructor | apply add_NoDup | apply remove_NoDup];
    assumption.
Qed.

Lemma reachable_derived r :
  reachable deriveChannelId r -> derived deriveChannelId r.
Proof.
  unfold derived. induction 1 as [|s0 c0 r H IH|s0 c0 r H IH].
  - constructor.
  - unfold add. destruct (lookup s0 c0 r); simpl; [exact IH|].
    apply Forall_app. split; [exact IH|].
    constructor; [reflexivity | constructor].
  - unfold remove. destruct (lookup s0 c0 r); simpl; [|exact IH].
    apply Forall_forall. intros j Hj. apply filter_In in Hj.
    rewrite Forall_forall in IH. apply IH. tauto.
Qed.

(** After [add] the pair is registered, under the identifier returned. *)
Lemma lookup_add stream0 source0 r :
  exists i,
    lookup stream0 source0 (snd (add deriveChannelId stream0 source0 r))
      = Some i /\
    channelId i = fst (add deriveChannelId stream0 source0 r).
Proof.
  unfold add. destruct (lookup stream0 source0 r) as [i|] eqn:E; simpl.
  - exists i. auto.
  - exists (mkInput stream0 source0 (deriveChannelId stream0 source0)).
    split; [|reflexivity]. unfold lookup in *.
    induction r as [|j r IH]; simpl in *.
    + unfold samePair. simpl. rewrite !value_eqb_refl. reflexivity.
    + destruct (samePair stream0 source0 j); [discriminate | auto].
Qed.

(** On a reachable registry [add] returns the derived identifier. *)
Lemma add_derived stream0 source0 r :
  reachable deriveChannelId r ->
  fst (add deriveChannelId stream0 source0 r)
    = deriveChannelId stream0 source0.
Proof.
  intros H. apply reachable_derived in H. unfold add.
  destruct (lookup stream0 source0 r) as [i|] eqn:E; simpl; [|reflexivity].
  apply lookup_Some in E. destruct E as (Hin & <- & <-).
  unfold derived in H. rewrite Forall_forall in H. auto.
Qed.

(** After [remove] the pair is not registered. *)
Lemma remove_not_In stream0 source0 r :
  ~ In (stream0, source0)
      (pairs (snd (remove deriveChannelId stream0 source0 r))).
Proof.
  unfold remove. destruct (lookup stream0 source0 r) eqn:E; simpl.
  - unfold pairs, getInputs. rewrite in_map_iff.
    intros (j & Hj & Hin). apply filter_In in Hin.
    destruct Hin as [_ Hin]. apply negb_true_iff in Hin.
    apply samePair_true in Hj. congruence.
  - apply lookup_None. exact E.
Qed.

End Derivation.

End RegistryFacts.

(** ** What one message does to the world *)

Section ServerFacts.

Variable deriveChannelId : Value -> Value -> jsstring.

Lemma item_slice (a : list jsstring) (i : nat) :
  i < 3 -> item (slice 0 (Some 3%Z) a) i = item a i.
Proof.
  intros Hi. change 3%Z with (Z.of_nat 3). rewrite slice_first.
  unfold item. rewrite nth_error_firstn.
  destruct (Nat.ltb_spec i 3); [reflexivity | lia].
Qed.

Lemma item_split_0 (sep : N) (s : jsstring) :
  exists tag, item (split sep s) 0 = Str tag.
Proof.
  destruct (split sep s) as [|tag rest] eqn:E.
  - exfalso. exact (split_not_nil _ _ E).
  - exists tag. reflexivity.
Qed.

Lemma handleNewMessage_run config msgParts w :
  handleNewMessage deriveChannelId config msgParts w =
  (tt,
   let stream := item msgParts 1 in
   let source := item msgParts 2 in
   let inputName :=
     fst (InputRegistry.add deriveChannelId stream source (inputs w)) in
   mkWorld (snd (InputRegistry.add deriveChannelId stream source (inputs w)))
     (trace w ++
      InputsAdd stream source ::
      EmitTo inputName (item msgParts 0)
        (messageObject inputName (join BAR (skipn 3 msgParts)) stream source) ::
      EmitAll (Str (lit "+ping")) (pingObject inputName stream source) ::
      (if debug config then [LoggerDebug (join BAR msgParts)] else []))).
Proof.
  unfold handleNewMessage, bind, inputs_add, io_to_emit, io_emit,
    logger_debug, perform, when, ret.
  rewrite !item_slice by lia.
  change 3%Z with (Z.of_nat 3). rewrite slice_from.
  destruct (InputRegistry.add deriveChannelId (item msgParts 1)
              (item msgParts 2) (inputs w)) as [id r].
  destruct (debug config); simpl; rewrite <- !app_assoc; reflexivity.
Qed.

Lemma handleRegisterInput_run config msgParts w :
  handleRegisterInput deriveChannelId config msgParts w =
  (tt,
   let stream := item msgParts 1 in
   let source := item msgParts 2 in
   let inputName :=
     fst (InputRegistry.add deriveChannelId stream source (inputs w)) in
   mkWorld (snd (InputRegistry.add deriveChannelId stream source (inputs w)))
     (trace w ++
      [InputsAdd stream source;
       EmitAll (item msgParts 0) (inputObject stream source inputName)])).
Proof.
  unfold handleRegisterInput, bind, inputs_add, io_emit, perform.
  rewrite !item_slice by lia.
  destruct (InputRegistry.add deriveChannelId (item msgParts 1)
              (item msgParts 2) (inputs w)) as [id r].
  simpl. rewrite <- !app_assoc. reflexivity.
Qed.

Lemma handleDeregisterInput_run config msgParts w :
  handleDeregisterInput deriveChannelId config msgParts w =
  (tt,
   let stream := item msgParts 1 in
   let source := item msgParts 2 in
   let inputName :=
     fst (InputRegistry.remove deriveChannelId stream source (inputs w)) in
   mkWorld (snd (InputRegistry.remove deriveChannelId stream source (inputs w)))
     (trace w ++
      [InputsRemove stream source;
       EmitAll (item msgParts 0) (inputObject stream source inputName)])).
Proof.
  unfold handleDeregisterInput, bind, inputs_remove, io_emit, perform.
  rewrite !item_slice by lia.
  destruct (InputRegistry.remove deriveChannelId (item msgParts 1)
              (item msgParts 2) (inputs w)) as [id r].
  simpl. rewrite <- !app_assoc. reflexivity.
Qed.

(** *** Looking a tag up in [messageHandlers] *)

Lemma assoc_None (A : Type) (key : jsstring) (table : list (jsstring * A)) :
  ~ In key (map fst table) -> assoc key table = None.
Proof.
  unfold assoc. induction table as [|[k v] table IH]; simpl; intros H;
    [reflexivity|].
  destruct (JS.eqb k key) eqn:E.
  - apply eqb_eq in E. exfalso. apply H. left. exact E.
  - apply IH. intros F. apply H. right. exact F.
Qed.

Lemma assoc_Some (A : Type) (key : jsstring) (table : list (jsstring * A))
  (v : A) :
  assoc key table = Some v -> In key (map fst table).
Proof.
  unfold assoc. induction table as [|[k u] table IH]; simpl;
    [discriminate|].
  destruct (JS.eqb k key) eqn:E.
  - apply eqb_eq in E. intros _. left. exact E.
  - intros H. right. exact (IH H).
Qed.

Lemma messageHandlers_tags :
  map fst (messageHandlers deriveChannelId) = handlerTags.
Proof. reflexivity. Qed.

Lemma getMessageHandler_unknown (tag : jsstring) :
  unknownTag tag -> getMessageHandler deriveChannelId (Str tag) = None.
Proof.
  intros [H1 H2]. unfold getMessageHandler. simpl toString.
  rewrite assoc_None by (rewrite messageHandlers_tags; exact H1).
  rewrite assoc_None by exact H2. reflexivity.
Qed.

Lemma getMessageHandler_inherited (tag : jsstring) :
  In tag inheritedNames ->
  exists call,
    getMessageHandler deriveChannelId (Str tag) = Some (Inherited call).
Proof.
  intros H. unfold getMessageHandler. simpl toString.
  assert (Hown : ~ In tag handlerTags).
  { intros F. unfold inheritedNames, handlerTags in *. simpl in H, F.
    repeat (destruct H as [<-|H]; [intuition discriminate|]). exact H. }
  rewrite assoc_None by (rewrite messageHandlers_tags; exact Hown).
  destruct (assoc tag objectPrototype) as [call|] eqn:E.
  - exists call. reflexivity.
  - exfalso. revert E. unfold assoc.
    unfold inheritedNames in H. simpl in H.
    repeat (destruct H as [<-|H]; [discriminate|]). destruct H.
Qed.

(** A message with an unknown tag is reported, and nothing else. *)
Lemma processMessage_unknown config msg tag w :
  item (split BAR msg) 0 = Str tag -> unknownTag tag ->
  processMessage deriveChannelId config msg w =
  (Fulfilled,
   mkWorld (inputs w)
     (trace w ++ [LoggerError (lit "Unknown message type: " ++ tag)])).
Proof.
  intros Htag Hun. unfold processMessage. rewrite Htag.
  rewrite getMessageHandler_unknown by exact Hun. reflexivity.
Qed.

(** A message whose tag names an inherited member changes nothing. *)
Lemma processMessage_inherited config msg tag w :
  item (split BAR msg) 0 = Str tag -> In tag inheritedNames ->
  snd (processMessage deriveChannelId config msg w) = w.
Proof.
  intros Htag Hin. unfold processMessage. rewrite Htag.
  destruct (getMessageHandler_inherited Hin) as [call ->]. reflexivity.
Qed.

Lemma processMessage_msg config msg w :
  item (split BAR msg) 0 = Str (lit "+msg") ->
  processMessage deriveChannelId config msg w =
  (Fulfilled,
   snd (handleNewMessage deriveChannelId config (split BAR msg) w)).
Proof.
  intros Htag. unfold processMessage. rewrite Htag. simpl.
  unfold bind. destruct (handleNewMessage _ _ _ _). reflexivity.
Qed.

Lemma processMessage_input config msg w :
  item (split BAR msg) 0 = Str (lit "+input") ->
  processMessage deriveChannelId config msg w =
  (Fulfilled,
   snd (handleRegisterInput deriveChannelId config (split BAR msg) w)).
Proof.
  intros Htag. unfold processMessage. rewrite Htag. simpl.
  unfold bind. destruct (handleRegisterInput _ _ _ _). reflexivity.
Qed.

Lemma processMessage_deinput config msg w :
  item (split BAR msg) 0 = Str (lit "-input") ->
  processMessage deriveChannelId config msg w =
  (Fulfilled,
   snd (handleDeregisterInput deriveChannelId config (split BAR msg) w)).
Proof.
  intros Htag. unfold processMessage. rewrite Htag. simpl.
  unfold bind. destruct (handleDeregisterInput _ _ _ _). reflexivity.
Qed.

(** *** Batches *)

Lemma forEach_app (A B : Type) (f : A -> M B) (a b : list A) (w : World) :
  forEach f (a ++ b) w = forEach f b (snd (forEach f a w)).
Proof.
  revert w. induction a as [|x a IH]; intros w; [reflexivity|].
  simpl. unfold bind. destruct (f x w) as [y w']. apply IH.
Qed.

Lemma forEach_cons (A B : Type) (f : A -> M B) (x : A) (a : list A)
  (w : World) :
  forEach f (x :: a) w = forEach f a (snd (f x w)).
Proof. simpl. unfold bind. destruct (f x w). reflexivity. Qed.


(** The messages of a chunk whose text is cut into [pieces] and a last
    piece: the pieces that are not blank. *)
Lemma parseMessages_pieces (data : Buffer) (pieces : list jsstring)
  (final : jsstring) :
  Forall (fun p => ~ In NUL p) (pieces ++ [final]) ->
  Buffer_toString data = join NUL (pieces ++ [final]) ->
  parseMessages data = filter (fun p => negb (onlyWhiteSpace p)) pieces.
Proof.
  intros Hall Htext. unfold parseMessages. rewrite Htext.
  rewrite split_join; [|destruct pieces; discriminate | exact Hall].
  rewrite slice_init. apply filter_ext. intros p. apply truthy_trim.
Qed.

End ServerFacts.

(** ** The wire parser and the payload *)

Section WireParser.

Variable deriveChannelId : Value -> Value -> jsstring.

(** C1.  [broadcastMessage] splits the decoded text of every chunk on
    ['\0'], drops the last segment of the split, and dispatches, in order,
    exactly the other segments that are neither empty nor only whitespace;
    the split is the one way to cut the text into pieces that hold no
    ['\0'].  For the chunk ["+msg|a|b|hello\0+msg|a|b|world"]
    the only thing that happens is the dispatch of the [hello] message;
    [world] is dropped. *)
Theorem broadcastMessage_dispatches_segments :
  (forall config (data : Buffer) w,
      exists pieces final,
        split NUL (Buffer_toString data) = pieces ++ [final] /\
        broadcastMessage deriveChannelId config data w =
        forEach (processMessage deriveChannelId config)
          (filter (fun p => negb (onlyWhiteSpace p)) pieces) w)
  /\
  (forall config (data : Buffer) pieces final w,
      Forall (fun p => ~ In NUL p) (pieces ++ [final]) ->
      Buffer_toString data = join NUL (pieces ++ [final]) ->
      broadcastMessage deriveChannelId config data w =
      forEach (processMessage deriveChannelId config)
        (filter (fun p => negb (onlyWhiteSpace p)) pieces) w)
  /\
  (forall config w,
      let inputName :=
        fst (InputRegistry.add deriveChannelId (Str (lit "a")) (Str (lit "b"))
               (inputs w)) in
      parseMessages helloWorldChunk = [lit "+msg|a|b|hello"] /\
      broadcastMessage deriveChannelId config helloWorldChunk w =
      (tt,
       mkWorld
         (snd (InputRegistry.add deriveChannelId (Str (lit "a"))
                 (Str (lit "b")) (inputs w)))
         (trace w ++
          InputsAdd (Str (lit "a")) (Str (lit "b")) ::
          EmitTo inputName (Str (lit "+msg"))
            (messageObject inputName (lit "hello")
               (Str (lit "a")) (Str (lit "b"))) ::
          EmitAll (Str (lit "+ping"))
            (pingObject inputName (Str (lit "a")) (Str (lit "b"))) ::
          (if debug config
           then [LoggerDebug (lit "+msg|a|b|hello")] else [])))).
Proof.
  split; [|split].
  - intros config data w.
    destruct (exists_last (split_not_nil NUL (Buffer_toString data)))
      as (pieces & final & Hsplit).
    exists pieces, final. split; [exact Hsplit|].
    unfold broadcastMessage.
    rewrite (@parseMessages_pieces data pieces final); [reflexivity | |].
    + rewrite <- Hsplit. apply split_pieces.
    + rewrite <- Hsplit. symmetry. apply join_split.
  - intros config data pieces final w Hall Htext.
    unfold broadcastMessage.
    rewrite (@parseMessages_pieces data pieces final Hall Htext). reflexivity.
  - intros config w inputName.
    assert (Hparse : parseMessages helloWorldChunk = [lit "+msg|a|b|hello"])
      by reflexivity.
    split; [exact Hparse|].
    unfold broadcastMessage. rewrite Hparse.
    rewrite forEach_cons. simpl forEach. unfold ret.
    rewrite processMessage_msg by reflexivity.
    rewrite handleNewMessage_run. reflexivity.
Qed.

(** C2.  For a ['+msg'] message with any payload, the payload that is
    broadcast is the payload as it was sent, each ['|'] in it included. *)
Theorem payload_rejoined_verbatim config (stream source payload : jsstring) w :
  ~ In BAR stream -> ~ In BAR source ->
  let msg := lit "+msg" ++ BAR :: stream ++ BAR :: source ++ BAR :: payload in
  let inputName :=
    fst (InputRegistry.add deriveChannelId (Str stream) (Str source)
           (inputs w)) in
  join BAR (slice 3 None (split BAR msg)) = payload /\
  processMessage deriveChannelId config msg w =
  (Fulfilled,
   mkWorld
     (snd (InputRegistry.add deriveChannelId (Str stream) (Str source)
             (inputs w)))
     (trace w ++
      InputsAdd (Str stream) (Str source) ::
      EmitTo inputName (Str (lit "+msg"))
        (messageObject inputName payload (Str stream) (Str source)) ::
      EmitAll (Str (lit "+ping"))
        (pingObject inputName (Str stream) (Str source)) ::
      (if debug config then [LoggerDebug msg] else []))).
Proof.
  intros Hstream Hsource msg inputName.
  assert (Htag : ~ In BAR (lit "+msg")).
  { cbv. intuition discriminate. }
  assert (Hsplit : split BAR msg
                   = lit "+msg" :: stream :: source :: split BAR payload).
  { unfold msg. rewrite !split_app_sep by assumption. reflexivity. }
  split.
  - rewrite Hsplit. change 3%Z with (Z.of_nat 3). rewrite slice_from.
    simpl skipn. apply join_split.
  - rewrite processMessage_msg by (rewrite Hsplit; reflexivity).
    rewrite handleNewMessage_run. rewrite join_split.
    rewrite Hsplit. simpl skipn. rewrite join_split. reflexivity.
Qed.

(** C10.  A ['+msg'] message of exactly three fields is not skipped: its
    pair is registered and a message event is broadcast whose payload is
    the empty string. *)
Theorem message_without_payload config msg (stream source : jsstring) w :
  split BAR msg = [lit "+msg"; stream; source] ->
  let inputName :=
    fst (InputRegistry.add deriveChannelId (Str stream) (Str source)
           (inputs w)) in
  let after := snd (processMessage deriveChannelId config msg w) in
  In (Str stream, Str source) (InputRegistry.pairs (inputs after)) /\
  trace after =
    trace w ++
    InputsAdd (Str stream) (Str source) ::
    EmitTo inputName (Str (lit "+msg"))
      (messageObject inputName [] (Str stream) (Str source)) ::
    EmitAll (Str (lit "+ping"))
      (pingObject inputName (Str stream) (Str source)) ::
    (if debug config then [LoggerDebug msg] else []).
Proof.
  intros Hsplit inputName after. unfold after.
  rewrite processMessage_msg by (rewrite Hsplit; reflexivity).
  rewrite handleNewMessage_run. rewrite join_split.
  rewrite Hsplit. simpl snd. split; [|reflexivity].
  simpl inputs.
  destruct (RegistryFacts.lookup_add deriveChannelId (Str stream)
              (Str source) (inputs w)) as (i & Hi & _).
  apply RegistryFacts.lookup_Some in Hi. destruct Hi as (Hin & H1 & H2).
  unfold InputRegistry.pairs, InputRegistry.getInputs.
  apply in_map_iff. exists i. rewrite H1, H2. auto.
Qed.

End WireParser.

(** ** The registry operations *)

Section RegistryClaims.

Variable deriveChannelId : Value -> Value -> jsstring.

(** C4.  On every registry the server can hold, [add] called twice with the
    same stream and source returns the same channel identifier both times,
    the second call changes nothing, and [list()] then holds exactly one
    Input for the pair; no registry the server can hold has two Inputs for
    one pair. *)
Theorem add_idempotent (r : InputRegistry.t) (stream source : Value) :
  InputRegistry.reachable deriveChannelId r ->
  let first := InputRegistry.add deriveChannelId stream source r in
  let second :=
    InputRegistry.add deriveChannelId stream source (snd first) in
  fst second = fst first /\
  snd second = snd first /\
  length (filter (InputRegistry.samePair stream source)
            (InputRegistry.getInputs (snd second))) = 1 /\
  NoDup (InputRegistry.pairs r) /\
  NoDup (InputRegistry.pairs (snd second)).
Proof.
  intros Hr first second.
  assert (Hr1 : InputRegistry.reachable deriveChannelId (snd first))
    by (apply InputRegistry.reachable_add; exact Hr).
  destruct (RegistryFacts.lookup_add deriveChannelId stream source r)
    as (i & Hi & Hid).
  fold first in Hi, Hid.
  assert (Hsecond : second = (fst first, snd first)).
  { unfold second, InputRegistry.add at 1. rewrite Hi, Hid. reflexivity. }
  rewrite Hsecond. simpl fst. simpl snd.
  split; [reflexivity|]. split; [reflexivity|]. split; [|split].
  - erewrite RegistryFacts.one_Input;
      [reflexivity | exact (RegistryFacts.reachable_NoDup Hr1) | exact Hi].
  - exact (RegistryFacts.reachable_NoDup Hr).
  - exact (RegistryFacts.reachable_NoDup Hr1).
Qed.

(** C5.  For a pair that is not registered, [remove] leaves the registry as
    it is and returns the channel identifier that [add] would derive, and
    [handleDeregisterInput] broadcasts its event under that identifier;
    [remove("x","y")] on the empty registry leaves [list()] empty. *)
Theorem remove_unknown_pair (r : InputRegistry.t) (stream source : Value) :
  ~ In (stream, source) (InputRegistry.pairs r) ->
  InputRegistry.remove deriveChannelId stream source r
    = (deriveChannelId stream source, r) /\
  fst (InputRegistry.add deriveChannelId stream source r)
    = deriveChannelId stream source /\
  (forall config msgParts w,
      inputs w = r ->
      item msgParts 1 = stream -> item msgParts 2 = source ->
      handleDeregisterInput deriveChannelId config msgParts w =
      (tt,
       mkWorld r
         (trace w ++
          [InputsRemove stream source;
           EmitAll (item msgParts 0)
             (inputObject stream source
                (deriveChannelId stream source))]))) /\
  InputRegistry.getInputs
    (snd (InputRegistry.remove deriveChannelId (Str (lit "x"))
            (Str (lit "y")) InputRegistry.empty)) = [].
Proof.
  intros Hnot. apply RegistryFacts.lookup_None in Hnot.
  assert (Hrem : InputRegistry.remove deriveChannelId stream source r
                 = (deriveChannelId stream source, r)).
  { unfold InputRegistry.remove. rewrite Hnot. reflexivity. }
  split; [exact Hrem|]. split; [|split].
  - unfold InputRegistry.add. rewrite Hnot. reflexivity.
  - intros config msgParts w Hw Hs Hc.
    rewrite handleDeregisterInput_run. cbv zeta.
    rewrite Hw, Hs, Hc, Hrem. reflexivity.
  - reflexivity.
Qed.

End RegistryClaims.

(** ** The message router *)

Section Router.

Variable deriveChannelId : Value -> Value -> jsstring.

(** C6.  A ['+msg'] message resolves its channel with [inputs.add], emits
    one message event to that channel and one ['+ping'] event to all: a
    viewer that joined the channel receives the message event once, a
    viewer that did not receives no message event, and both receive the
    ping once; the ping holds the channel identifier, the stream and the
    source, and no [msg]. *)
Theorem new_message_fan_out config msg w :
  item (split BAR msg) 0 = Str (lit "+msg") ->
  let msgParts := split BAR msg in
  let stream := item msgParts 1 in
  let source := item msgParts 2 in
  let added :=
    InputRegistry.add deriveChannelId stream source (inputs w) in
  let inputName := fst added in
  let message :=
    messageObject inputName (join BAR (skipn 3 msgParts)) stream source in
  let ping := pingObject inputName stream source in
  let effects :=
    InputsAdd stream source ::
    EmitTo inputName (Str (lit "+msg")) message ::
    EmitAll (Str (lit "+ping")) ping ::
    (if debug config then [LoggerDebug msg] else []) in
  processMessage deriveChannelId config msg w
    = (Fulfilled, mkWorld (snd added) (trace w ++ effects)) /\
  (forall v, subscribed v inputName = true ->
     received v effects
       = [(Str (lit "+msg"), message); (Str (lit "+ping"), ping)]) /\
  (forall v, subscribed v inputName = false ->
     received v effects = [(Str (lit "+ping"), ping)]) /\
  keys ping = ["inputName"; "stream"; "source"]%string.
Proof.
  intros Htag msgParts stream source added inputName message ping effects.
  split; [|split; [|split]].
  - rewrite processMessage_msg by exact Htag.
    rewrite handleNewMessage_run. rewrite join_split, Htag.
    reflexivity.
  - intros v Hv. unfold effects, received. simpl. rewrite Hv.
    destruct (debug config); reflexivity.
  - intros v Hv. unfold effects, received. simpl. rewrite Hv.
    destruct (debug config); reflexivity.
  - reflexivity.
Qed.

(** C7.  After the chunk ["+input|app|host1\0"] and then the chunk
    ["-input|app|host1\0"], the pair (app, host1) is not in [list()], and
    the second chunk makes every viewer receive one event, the ['-input']
    event that carries the channel identifier the ['+input'] event
    carried, the one derived for the pair; the two frames in one chunk do
    the same. *)
Theorem register_then_deregister config w :
  InputRegistry.reachable deriveChannelId (inputs w) ->
  let app := Str (lit "app") in
  let host1 := Str (lit "host1") in
  let inputName := deriveChannelId app host1 in
  let w1 :=
    snd (broadcastMessage deriveChannelId config
           (lit "+input|app|host1" ++ [NUL]) w) in
  let w2 :=
    snd (broadcastMessage deriveChannelId config
           (lit "-input|app|host1" ++ [NUL]) w1) in
  let deregistration :=
    [InputsRemove app host1;
     EmitAll (Str (lit "-input")) (inputObject app host1 inputName)] in
  trace w1 =
    trace w ++
    [InputsAdd app host1;
     EmitAll (Str (lit "+input")) (inputObject app host1 inputName)] /\
  trace w2 = trace w1 ++ deregistration /\
  ~ In (app, host1) (InputRegistry.pairs (inputs w2)) /\
  (forall v, received v deregistration
             = [(Str (lit "-input"), inputObject app host1 inputName)]) /\
  snd (broadcastMessage deriveChannelId config
         (lit "+input|app|host1" ++ NUL :: lit "-input|app|host1" ++ [NUL]) w)
  = w2.
Proof.
  intros Hr. cbv zeta.
  set (app := Str (lit "app")). set (host1 := Str (lit "host1")).
  set (inputName := deriveChannelId app host1).
  set (w1 := snd (broadcastMessage _ _ (lit "+input|app|host1" ++ [NUL]) w)).
  set (w2 := snd (broadcastMessage _ _ _ w1)).
  set (deregistration := [InputsRemove app host1; _]).
  assert (Hadd : fst (InputRegistry.add deriveChannelId app host1 (inputs w))
                 = inputName)
    by (apply RegistryFacts.add_derived; exact Hr).
  assert (Hw1 : w1 = mkWorld
                       (snd (InputRegistry.add deriveChannelId app host1
                               (inputs w)))
                       (trace w ++
                        [InputsAdd app host1;
                         EmitAll (Str (lit "+input"))
                           (inputObject app host1 inputName)])).
  { unfold w1, broadcastMessage.
    change (parseMessages (lit "+input|app|host1" ++ [NUL]))
      with [lit "+input|app|host1"].
    rewrite forEach_cons. simpl forEach. unfold ret. simpl snd.
    rewrite processMessage_input by reflexivity.
    rewrite handleRegisterInput_run.
    change (split BAR (lit "+input|app|host1"))
      with [lit "+input"; lit "app"; lit "host1"].
    cbn [snd item nth_error]. fold app host1. rewrite Hadd. reflexivity. }
  destruct (RegistryFacts.lookup_add deriveChannelId app host1 (inputs w))
    as (i & Hi & Hid).
  rewrite Hadd in Hid.
  assert (Hw2 : w2 = mkWorld
                       (snd (InputRegistry.remove deriveChannelId app host1
                               (inputs w1)))
                       (trace w1 ++ deregistration)).
  { unfold w2, broadcastMessage.
    change (parseMessages (lit "-input|app|host1" ++ [NUL]))
      with [lit "-input|app|host1"].
    rewrite forEach_cons. simpl forEach. unfold ret. simpl snd.
    rewrite processMessage_deinput by reflexivity.
    rewrite handleDeregisterInput_run.
    change (split BAR (lit "-input|app|host1"))
      with [lit "-input"; lit "app"; lit "host1"].
    cbn [snd item nth_error]. fold app host1.
    assert (Hid' : fst (InputRegistry.remove deriveChannelId app host1
                          (inputs w1)) = inputName).
    { rewrite Hw1. simpl inputs. unfold InputRegistry.remove.
      rewrite Hi. exact Hid. }
    rewrite Hid'. reflexivity. }
  split; [rewrite Hw1; reflexivity|].
  split; [rewrite Hw2; reflexivity|].
  split; [|split; [reflexivity|]].
  - rewrite Hw2. simpl inputs. apply RegistryFacts.remove_not_In.
  - unfold w2, w1, broadcastMessage.
    change (parseMessages (lit "+input|app|host1" ++ [NUL]))
      with [lit "+input|app|host1"].
    change (parseMessages (lit "-input|app|host1" ++ [NUL]))
      with [lit "-input|app|host1"].
    change (parseMessages
              (lit "+input|app|host1" ++
               NUL :: lit "-input|app|host1" ++ [NUL]))
      with [lit "+input|app|host1"; lit "-input|app|host1"].
    rewrite !forEach_cons. reflexivity.
Qed.

End Router.

(** ** Order of effects, and segments that are not messages *)

Lemma mem_false (s : jsstring) (l : list jsstring) :
  mem s l = false -> ~ In s l.
Proof.
  unfold mem. intros H Hin.
  assert (E : existsb (JS.eqb s) l = true).
  { apply existsb_exists. exists s. split; [exact Hin | apply eqb_refl]. }
  congruence.
Qed.

Lemma lacks_spec (sep : N) (p : jsstring) : lacks sep p = true -> ~ In sep p.
Proof.
  unfold lacks. intros H Hin. apply negb_true_iff in H.
  assert (E : existsb (N.eqb sep) p = true).
  { apply existsb_exists. exists sep. split; [exact Hin | apply N.eqb_refl]. }
  congruence.
Qed.

Lemma unknownTag_mem (tag : jsstring) :
  mem tag handlerTags = false -> mem tag inheritedNames = false ->
  unknownTag tag.
Proof. intros H1 H2. split; apply mem_false; assumption. Qed.

Section Order.

Variable deriveChannelId : Value -> Value -> jsstring.

(** C9.  While one message with a handler tag is processed, the registry
    call ([add] for ['+msg'] and ['+input'], [remove] for ['-input']) is
    the first thing that happens; every broadcast of the message comes
    after it, finds the registry as the call left it, and carries the
    channel identifier the call returned. *)
Theorem registry_before_broadcast config msg tag w :
  item (split BAR msg) 0 = Str tag -> In tag handlerTags ->
  let stream := item (split BAR msg) 1 in
  let source := item (split BAR msg) 2 in
  let call :=
    if JS.eqb tag (lit "-input")
    then InputsRemove stream source else InputsAdd stream source in
  let result :=
    if JS.eqb tag (lit "-input")
    then InputRegistry.remove deriveChannelId stream source (inputs w)
    else InputRegistry.add deriveChannelId stream source (inputs w) in
  exists broadcasts,
    snd (processMessage deriveChannelId config msg w)
      = mkWorld (snd result) (trace w ++ call :: broadcasts) /\
    Forall (fun e => isRegistryCall e = false) broadcasts /\
    (exists e, In e broadcasts /\ isEmit e = true) /\
    Forall (fun e => isEmit e = true ->
                     prop (payloadOf e) "inputName" = Str (fst result))
      broadcasts.
Proof.
  intros Htag Hin. cbv zeta. unfold handlerTags in Hin. simpl in Hin.
  destruct Hin as [<-|[<-|[<-|[]]]].
  - rewrite processMessage_msg by exact Htag.
    rewrite handleNewMessage_run. cbv zeta.
    change (JS.eqb (lit "+msg") (lit "-input")) with false. cbv iota.
    eexists. split; [reflexivity|].
    split; [|split].
    + destruct (debug config); repeat constructor.
    + eexists. split; [left; reflexivity | reflexivity].
    + destruct (debug config); repeat constructor; discriminate.
  - rewrite processMessage_input by exact Htag.
    rewrite handleRegisterInput_run. cbv zeta.
    change (JS.eqb (lit "+input") (lit "-input")) with false. cbv iota.
    eexists. split; [reflexivity|].
    split; [|split].
    + repeat constructor.
    + eexists. split; [left; reflexivity | reflexivity].
    + repeat constructor.
  - rewrite processMessage_deinput by exact Htag.
    rewrite handleDeregisterInput_run. cbv zeta.
    change (JS.eqb (lit "-input") (lit "-input")) with true. cbv iota.
    eexists. split; [reflexivity|].
    split; [|split].
    + repeat constructor.
    + eexists. split; [left; reflexivity | reflexivity].
    + repeat constructor.
Qed.

(** C3, as the code has it.  A segment whose tag is no property of
    [messageHandlers] is skipped, whatever the number of its fields: it is
    reported with one [logger.error], nothing is thrown, no handler runs,
    and the segments after it in the batch are processed.  The number of
    fields is never tested: a segment with a handler tag goes to its
    handler also when it has fewer than three fields. *)
Theorem unknown_tag_skipped_batch_continues :
  (forall config before msg after tag w,
      item (split BAR msg) 0 = Str tag -> unknownTag tag ->
      let w1 :=
        snd (forEach (processMessage deriveChannelId config) before w) in
      let w2 :=
        mkWorld (inputs w1)
          (trace w1 ++
           [LoggerError (lit "Unknown message type: " ++ tag)]) in
      processMessage deriveChannelId config msg w1 = (Fulfilled, w2) /\
      skips deriveChannelId config msg w1 /\
      forEach (processMessage deriveChannelId config)
        (before ++ msg :: after) w
      = forEach (processMessage deriveChannelId config) after w2)
  /\
  (forall config msg tag w,
      item (split BAR msg) 0 = Str tag -> In tag handlerTags ->
      exists messageHandler,
        assoc tag (messageHandlers deriveChannelId) = Some messageHandler /\
        processMessage deriveChannelId config msg w
        = (Fulfilled, snd (messageHandler config (split BAR msg) w))).
Proof.
  split.
  - intros config before msg after tag w Htag Hun w1 w2.
    assert (Hrun : processMessage deriveChannelId config msg w1
                   = (Fulfilled, w2))
      by (apply processMessage_unknown; assumption).
    split; [exact Hrun|]. split.
    + exists [LoggerError (lit "Unknown message type: " ++ tag)].
      split; [exact Hrun | reflexivity].
    + rewrite forEach_app, forEach_cons. fold w1. rewrite Hrun.
      reflexivity.
  - intros config msg tag w Htag Hin.
    unfold handlerTags in Hin. simpl in Hin.
    destruct Hin as [<-|[<-|[<-|[]]]].
    + exists (handleNewMessage deriveChannelId).
      split; [reflexivity | apply processMessage_msg; exact Htag].
    + exists (handleRegisterInput deriveChannelId).
      split; [reflexivity | apply processMessage_input; exact Htag].
    + exists (handleDeregisterInput deriveChannelId).
      split; [reflexivity | apply processMessage_deinput; exact Htag].
Qed.

(** C8, at the input on which the code departs from it.  The tag
    [constructor] is none of ['+msg'], ['+input'], ['-input'], yet
    [messageHandlers["constructor"]] is the function [Object] inherited
    from [Object.prototype]: the router calls it as if it were a handler
    and reports nothing, so the chunk ["constructor|a|b\0"] leaves the
    world as it was, with no diagnostic at all. *)
Theorem inherited_tag_not_reported config w :
  ~ In (lit "constructor") handlerTags /\
  parseMessages (lit "constructor|a|b" ++ [NUL]) = [lit "constructor|a|b"] /\
  processMessage deriveChannelId config (lit "constructor|a|b") w
    = (Fulfilled, w) /\
  broadcastMessage deriveChannelId config (lit "constructor|a|b" ++ [NUL]) w
    = (tt, w).
Proof.
  split; [apply mem_false; reflexivity|].
  split; [reflexivity|]. split; reflexivity.
Qed.

(** A tag outside [messageHandlers] and [Object.prototype] is reported
    once and changes nothing else. *)
Lemma unknown_tag_reported_once config msg tag w :
  item (split BAR msg) 0 = Str tag -> unknownTag tag ->
  let after := snd (processMessage deriveChannelId config msg w) in
  inputs after = inputs w /\
  exists diagnostic,
    trace after = trace w ++ [LoggerError diagnostic].
Proof.
  intros Htag Hun after. unfold after.
  rewrite (processMessage_unknown deriveChannelId config msg w Htag Hun).
  split; [reflexivity|]. eexists. reflexivity.
Qed.

End Order.

(** ** The server on concrete chunks *)

(** The trailing-fragment example: the pieces have no ['\0'], they join to
    the chunk, and the chunk dispatches the [hello] piece only. *)
Lemma broadcastMessage_dispatches_segments_witness :
  Forall (fun p => ~ In NUL p)
    ([lit "+msg|a|b|hello"] ++ [lit "+msg|a|b|world"]) /\
  Buffer_toString helloWorldChunk
    = join NUL ([lit "+msg|a|b|hello"] ++ [lit "+msg|a|b|world"]) /\
  broadcastMessage pairChannelId quiet helloWorldChunk emptyWorld
    = forEach (processMessage pairChannelId quiet) [lit "+msg|a|b|hello"]
        emptyWorld.
Proof.
  assert (H1 : Forall (fun p => ~ In NUL p)
                 ([lit "+msg|a|b|hello"] ++ [lit "+msg|a|b|world"])).
  { constructor; [apply lacks_spec; reflexivity|].
    constructor; [apply lacks_spec; reflexivity|]. constructor. }
  assert (H2 : Buffer_toString helloWorldChunk
               = join NUL ([lit "+msg|a|b|hello"] ++ [lit "+msg|a|b|world"]))
    by reflexivity.
  split; [exact H1|]. split; [exact H2|].
  exact (proj1 (proj2 (broadcastMessage_dispatches_segments pairChannelId))
           quiet helloWorldChunk [lit "+msg|a|b|hello"]
           (lit "+msg|a|b|world") emptyWorld H1 H2).
Defined.

(** The round-trip example: ["+msg|app|host1|error: a|b|c"]. *)
Lemma payload_rejoined_verbatim_witness :
  ~ In BAR (lit "app") /\ ~ In BAR (lit "host1") /\
  join BAR (slice 3 None (split BAR (lit "+msg|app|host1|error: a|b|c")))
    = lit "error: a|b|c" /\
  processMessage pairChannelId quiet (lit "+msg|app|host1|error: a|b|c")
    emptyWorld
  = (Fulfilled,
     mkWorld [appHost1]
       [InputsAdd appStream host1Source;
        EmitTo (lit "app|host1") (Str (lit "+msg"))
          (messageObject (lit "app|host1") (lit "error: a|b|c")
             appStream host1Source);
        EmitAll (Str (lit "+ping"))
          (pingObject (lit "app|host1") appStream host1Source)]).
Proof.
  assert (H1 : ~ In BAR (lit "app")) by (apply lacks_spec; reflexivity).
  assert (H2 : ~ In BAR (lit "host1")) by (apply lacks_spec; reflexivity).
  split; [exact H1|]. split; [exact H2|].
  exact (@payload_rejoined_verbatim pairChannelId quiet (lit "app")
           (lit "host1") (lit "error: a|b|c") emptyWorld H1 H2).
Defined.

(** ["+msg|app|host1"]: three fields, an empty payload. *)
Lemma message_without_payload_witness :
  split BAR (lit "+msg|app|host1") = [lit "+msg"; lit "app"; lit "host1"] /\
  In (appStream, host1Source)
    (InputRegistry.pairs
       (inputs (snd (processMessage pairChannelId quiet (lit "+msg|app|host1")
                       emptyWorld)))) /\
  trace (snd (processMessage pairChannelId quiet (lit "+msg|app|host1")
                emptyWorld))
  = [InputsAdd appStream host1Source;
     EmitTo (lit "app|host1") (Str (lit "+msg"))
       (messageObject (lit "app|host1") [] appStream host1Source);
     EmitAll (Str (lit "+ping"))
       (pingObject (lit "app|host1") appStream host1Source)].
Proof.
  assert (H : split BAR (lit "+msg|app|host1")
              = [lit "+msg"; lit "app"; lit "host1"]) by reflexivity.
  split; [exact H|].
  exact (@message_without_payload pairChannelId quiet (lit "+msg|app|host1")
           (lit "app") (lit "host1") emptyWorld H).
Defined.

(** [add("app","host1")] twice on the empty registry. *)
Lemma add_idempotent_witness :
  InputRegistry.reachable pairChannelId InputRegistry.empty /\
  fst (InputRegistry.add pairChannelId appStream host1Source [appHost1])
    = lit "app|host1" /\
  snd (InputRegistry.add pairChannelId appStream host1Source [appHost1])
    = [appHost1] /\
  length (filter (InputRegistry.samePair appStream host1Source)
            (InputRegistry.getInputs [appHost1])) = 1 /\
  NoDup (InputRegistry.pairs InputRegistry.empty) /\
  NoDup (InputRegistry.pairs [appHost1]).
Proof.
  assert (H : InputRegistry.reachable pairChannelId InputRegistry.empty)
    by constructor.
  split; [exact H|].
  exact (@add_idempotent pairChannelId InputRegistry.empty appStream
           host1Source H).
Defined.

(** [remove("x","y")] on the empty registry. *)
Lemma remove_unknown_pair_witness :
  ~ In (Str (lit "x"), Str (lit "y"))
      (InputRegistry.pairs InputRegistry.empty) /\
  InputRegistry.remove pairChannelId (Str (lit "x")) (Str (lit "y"))
    InputRegistry.empty
  = (lit "x|y", InputRegistry.empty) /\
  fst (InputRegistry.add pairChannelId (Str (lit "x")) (Str (lit "y"))
         InputRegistry.empty) = lit "x|y".
Proof.
  assert (H : ~ In (Str (lit "x"), Str (lit "y"))
                (InputRegistry.pairs InputRegistry.empty))
    by (intros []).
  split; [exact H|].
  pose proof (@remove_unknown_pair pairChannelId InputRegistry.empty
                (Str (lit "x")) (Str (lit "y")) H) as (H1 & H2 & _).
  split; [exact H1 | exact H2].
Defined.

(** ["+msg|app|host1|up"], seen by a viewer of the channel and by a viewer
    of another channel. *)
Lemma new_message_fan_out_witness :
  item (split BAR (lit "+msg|app|host1|up")) 0 = Str (lit "+msg") /\
  received (mkViewer [lit "app|host1"])
    (trace (snd (processMessage pairChannelId quiet (lit "+msg|app|host1|up")
                   emptyWorld)))
  = [(Str (lit "+msg"),
      messageObject (lit "app|host1") (lit "up") appStream host1Source);
     (Str (lit "+ping"), pingObject (lit "app|host1") appStream host1Source)] /\
  received (mkViewer [lit "web|host2"])
    (trace (snd (processMessage pairChannelId quiet (lit "+msg|app|host1|up")
                   emptyWorld)))
  = [(Str (lit "+ping"), pingObject (lit "app|host1") appStream host1Source)].
Proof.
  assert (H : item (split BAR (lit "+msg|app|host1|up")) 0 = Str (lit "+msg"))
    by reflexivity.
  split; [exact H|].
  pose proof (@new_message_fan_out pairChannelId quiet
                (lit "+msg|app|host1|up") emptyWorld H)
    as (Hrun & Hin & Hout & _).
  rewrite Hrun. split.
  - exact (Hin (mkViewer [lit "app|host1"]) eq_refl).
  - exact (Hout (mkViewer [lit "web|host2"]) eq_refl).
Defined.

(** ["+input|app|host1\0"] then ["-input|app|host1\0"] from the empty
    world. *)
Lemma register_then_deregister_witness :
  InputRegistry.reachable pairChannelId (inputs emptyWorld) /\
  snd (broadcastMessage pairChannelId quiet (lit "-input|app|host1" ++ [NUL])
         (snd (broadcastMessage pairChannelId quiet
                 (lit "+input|app|host1" ++ [NUL]) emptyWorld)))
  = mkWorld []
      [InputsAdd appStream host1Source;
       EmitAll (Str (lit "+input"))
         (inputObject appStream host1Source (lit "app|host1"));
       InputsRemove appStream host1Source;
       EmitAll (Str (lit "-input"))
         (inputObject appStream host1Source (lit "app|host1"))] /\
  ~ In (appStream, host1Source)
      (InputRegistry.pairs
         (inputs
            (snd (broadcastMessage pairChannelId quiet
                    (lit "-input|app|host1" ++ [NUL])
                    (snd (broadcastMessage pairChannelId quiet
                            (lit "+input|app|host1" ++ [NUL]) emptyWorld)))))).
Proof.
  assert (H : InputRegistry.reachable pairChannelId (inputs emptyWorld))
    by constructor.
  split; [exact H|]. split; [reflexivity|].
  exact (proj1 (proj2 (proj2
           (@register_then_deregister pairChannelId quiet emptyWorld H)))).
Defined.

(** ["-input|app|host1"] from the empty world: [remove], then the event. *)
Lemma registry_before_broadcast_witness :
  item (split BAR (lit "-input|app|host1")) 0 = Str (lit "-input") /\
  In (lit "-input") handlerTags /\
  exists broadcasts,
    snd (processMessage pairChannelId quiet (lit "-input|app|host1") emptyWorld)
    = mkWorld [] ([] ++ InputsRemove appStream host1Source :: broadcasts) /\
    Forall (fun e => isRegistryCall e = false) broadcasts /\
    (exists e, In e broadcasts /\ isEmit e = true) /\
    Forall (fun e => isEmit e = true ->
                     prop (payloadOf e) "inputName" = Str (lit "app|host1"))
      broadcasts.
Proof.
  assert (H1 : item (split BAR (lit "-input|app|host1")) 0
               = Str (lit "-input")) by reflexivity.
  assert (H2 : In (lit "-input") handlerTags)
    by (right; right; left; reflexivity).
  split; [exact H1|]. split; [exact H2|].
  exact (@registry_before_broadcast pairChannelId quiet
           (lit "-input|app|host1") (lit "-input") emptyWorld H1 H2).
Defined.

(** The batch [bogus|a], [+input|app|host1]: the first segment is reported
    and the second is processed. *)
Lemma unknown_tag_skipped_batch_continues_witness :
  item (split BAR (lit "bogus|a")) 0 = Str (lit "bogus") /\
  unknownTag (lit "bogus") /\
  skips pairChannelId quiet (lit "bogus|a") emptyWorld /\
  forEach (processMessage pairChannelId quiet)
    ([] ++ lit "bogus|a" :: [lit "+input|app|host1"]) emptyWorld
  = forEach (processMessage pairChannelId quiet) [lit "+input|app|host1"]
      (mkWorld [] [LoggerError (lit "Unknown message type: bogus")]).
Proof.
  assert (H1 : item (split BAR (lit "bogus|a")) 0 = Str (lit "bogus"))
    by reflexivity.
  assert (H2 : unknownTag (lit "bogus"))
    by (apply unknownTag_mem; reflexivity).
  split; [exact H1|]. split; [exact H2|].
  pose proof (proj1 (unknown_tag_skipped_batch_continues pairChannelId)
                quiet [] (lit "bogus|a") [lit "+input|app|host1"]
                (lit "bogus") emptyWorld H1 H2) as (_ & Hskip & Hrest).
  split; [exact Hskip | exact Hrest].
Defined.

(** C3 as the specification words it fails on the segment ["+input|app"]:
    it has two fields, fewer than three, yet it is not skipped but handed to
    [handleRegisterInput], which registers the pair (app, undefined) and
    broadcasts an ['+input'] event for it. *)
Lemma short_segment_dispatched :
  length (split BAR (lit "+input|app")) = 2 /\
  processMessage pairChannelId quiet (lit "+input|app") emptyWorld
  = (Fulfilled,
     mkWorld [InputRegistry.mkInput appStream Undefined (lit "app|undefined")]
       [InputsAdd appStream Undefined;
        EmitAll (Str (lit "+input"))
          (inputObject appStream Undefined (lit "app|undefined"))]) /\
  ~ skips pairChannelId quiet (lit "+input|app") emptyWorld.
Proof.
  split; [reflexivity|]. split; [reflexivity|].
  intros (log & Hrun & _).
  assert (Hinputs :
            inputs (snd (processMessage pairChannelId quiet (lit "+input|app")
                           emptyWorld)) = inputs emptyWorld)
    by (rewrite Hrun; reflexivity).
  discriminate Hinputs.
Qed.

(** The unknown-tag example of the specification: the chunk
    ["bogus|a|b|c\0+input|app|host1\0"] is reported once, the registry and
    the viewers see nothing of [bogus], and the message after it is
    processed. *)
Example bogus_then_valid :
  broadcastMessage pairChannelId quiet
    (lit "bogus|a|b|c" ++ NUL :: lit "+input|app|host1" ++ [NUL]) emptyWorld
  = (tt,
     mkWorld [appHost1]
       [LoggerError (lit "Unknown message type: bogus");
        InputsAdd appStream host1Source;
        EmitAll (Str (lit "+input"))
          (inputObject appStream host1Source (lit "app|host1"))]).
Proof. reflexivity. Qed.

(** ** More on strings *)

Lemma split_app (sep : N) (a b : jsstring) :
  split sep (a ++ sep :: b) = split sep a ++ split sep b.
Proof.
  induction a as [|c a IH].
  - apply split_cons_sep.
  - destruct (N.eq_dec c sep) as [->|Hc].
    + rewrite <- app_comm_cons, !split_cons_sep, IH. reflexivity.
    + destruct (split_cons_other (a ++ sep :: b) Hc) as (q & qs & E1 & E2).
      destruct (split_cons_other a Hc) as (q' & qs' & E1' & E2').
      rewrite <- app_comm_cons, E2, E2'. rewrite IH, E1' in E1.
      injection E1 as <- <-. reflexivity.
Qed.

(** The code units of a piece are code units of the string. *)
Lemma split_chars (sep : N) (s p : jsstring) (c : N) :
  In p (split sep s) -> In c p -> In c s.
Proof.
  revert p. induction s as [|d s IH]; intros p Hp Hc.
  - destruct Hp as [<-|[]]. exact Hc.
  - destruct (N.eq_dec d sep) as [->|Hd].
    + rewrite split_cons_sep in Hp. destruct Hp as [<-|Hp]; [destruct Hc|].
      right. exact (IH p Hp Hc).
    + destruct (split_cons_other s Hd) as (q & qs & E1 & E2).
      rewrite E2 in Hp. rewrite E1 in IH. destruct Hp as [<-|Hp].
      * destruct Hc as [->|Hc]; [left; reflexivity|].
        right. apply (IH q); [left; reflexivity | exact Hc].
      * right. apply (IH p); [right; exact Hp | exact Hc].
Qed.

Lemma onlyWhiteSpace_app (a b : jsstring) :
  onlyWhiteSpace (a ++ b) = onlyWhiteSpace a && onlyWhiteSpace b.
Proof. apply forallb_app. Qed.

(** *** Through UTF-8 and back *)

Definition isSurrogate (c : N) : bool := isHighSurrogate c || isLowSurrogate c.

Lemma isSurrogate_false (c : N) :
  isSurrogate c = false ->
  isHighSurrogate c = false /\ isLowSurrogate c = false.
Proof. apply orb_false_iff. Qed.

(** A prefix without surrogates is left as it is. *)
Lemma toWellFormed_prefix (a b : jsstring) :
  forallb (fun c => negb (isSurrogate c)) a = true ->
  toWellFormed (a ++ b) = a ++ toWellFormed b.
Proof.
  induction a as [|c a IH]; intros Ha; [reflexivity|].
  simpl in Ha. apply andb_true_iff in Ha. destruct Ha as [Hc Ha].
  apply negb_true_iff, isSurrogate_false in Hc. destruct Hc as [Hh Hl].
  simpl. rewrite Hh, Hl, (IH Ha). reflexivity.
Qed.

Lemma toWellFormed_one (x : N) :
  toWellFormed [x] = [if isSurrogate x then 65533%N else x].
Proof.
  unfold isSurrogate. simpl.
  destruct (isHighSurrogate x), (isLowSurrogate x); reflexivity.
Qed.

Lemma toWellFormed_two (x y : N) (s : jsstring) :
  toWellFormed (x :: y :: s) =
  if isHighSurrogate x && isLowSurrogate y then x :: y :: toWellFormed s
  else (if isSurrogate x then 65533%N else x) :: toWellFormed (y :: s).
Proof.
  unfold isSurrogate. cbn [toWellFormed].
  destruct (isHighSurrogate x), (isLowSurrogate y), (isLowSurrogate x);
    reflexivity.
Qed.

(** A code unit that is no surrogate cuts the string in two. *)
Lemma toWellFormed_cut (n : nat) (a b : jsstring) (c : N) :
  length a <= n -> isSurrogate c = false ->
  toWellFormed (a ++ c :: b) = toWellFormed a ++ c :: toWellFormed b.
Proof.
  intros Hn Hc. destruct (isSurrogate_false _ Hc) as [Hh Hl].
  assert (Hnil : toWellFormed (c :: b) = c :: toWellFormed b)
    by (simpl; rewrite Hh, Hl; reflexivity).
  revert a Hn. induction n as [|n IH]; intros a Hn.
  - destruct a; [exact Hnil | simpl in Hn; lia].
  - destruct a as [|x [|y a]]; [exact Hnil | |].
    + change ([x] ++ c :: b) with (x :: c :: b).
      rewrite toWellFormed_two, toWellFormed_one, Hl, Hnil.
      rewrite andb_false_r. reflexivity.
    + simpl in Hn. rewrite <- !app_comm_cons. rewrite !toWellFormed_two.
      destruct (isHighSurrogate x && isLowSurrogate y).
      * rewrite IH by lia. reflexivity.
      * rewrite app_comm_cons, IH by (simpl; lia). reflexivity.
Qed.

(** No ['\0'] goes in or out. *)
Lemma toWellFormed_NUL (n : nat) (s : jsstring) :
  length s <= n -> ~ In NUL s -> ~ In NUL (toWellFormed s).
Proof.
  revert s. induction n as [|n IH]; intros s Hn Hs.
  - destruct s; [intros [] | simpl in Hn; lia].
  - destruct s as [|x [|y s]]; [intros [] | |].
    + rewrite toWellFormed_one. intros [H|[]].
      destruct (isSurrogate x); [discriminate|].
      apply Hs. left. auto.
    + simpl in Hn. rewrite toWellFormed_two.
      assert (Hx : x <> NUL) by (intros ->; apply Hs; left; reflexivity).
      assert (Hy : y <> NUL)
        by (intros ->; apply Hs; right; left; reflexivity).
      destruct (isHighSurrogate x && isLowSurrogate y).
      * intros [H|[H|H]]; [congruence | congruence |].
        revert H. apply IH; [lia|].
        intros H. apply Hs. right. right. exact H.
      * intros [H|H].
        -- destruct (isSurrogate x); [discriminate | congruence].
        -- revert H. apply IH; [simpl; lia|].
           intros H. apply Hs. right. exact H.
Qed.

(** ** Every message, every chunk *)

Section Frames.

Variable deriveChannelId : Value -> Value -> jsstring.

(** The world with the calls made so far forgotten. *)
Definition bare (w : World) : World := mkWorld (inputs w) [].

(** An own property of [messageHandlers] is one of the three handlers,
    found under its tag. *)
Lemma getMessageHandler_Own (tag : jsstring) (handler : MessageHandler) :
  getMessageHandler deriveChannelId (Str tag) = Some (Own handler) ->
  (tag = lit "+msg" /\ handler = handleNewMessage deriveChannelId) \/
  (tag = lit "+input" /\ handler = handleRegisterInput deriveChannelId) \/
  (tag = lit "-input" /\ handler = handleDeregisterInput deriveChannelId).
Proof.
  unfold getMessageHandler, assoc, messageHandlers. simpl toString.
  cbn [find fst snd].
  destruct (JS.eqb (lit "+msg") tag) eqn:E1.
  { apply eqb_eq in E1. intros H. injection H as <-. left. auto. }
  destruct (JS.eqb (lit "+input") tag) eqn:E2.
  { apply eqb_eq in E2. intros H. injection H as <-. right. left. auto. }
  destruct (JS.eqb (lit "-input") tag) eqn:E3.
  { apply eqb_eq in E3. intros H. injection H as <-. right. right. auto. }
  destruct (find _ objectPrototype); discriminate.
Qed.

(** What a message does, by the property its tag finds. *)
Lemma processMessage_cases config msg w :
  exists tag,
    item (split BAR msg) 0 = Str tag /\
    ((tag = lit "+msg" /\
      snd (processMessage deriveChannelId config msg w)
      = snd (handleNewMessage deriveChannelId config (split BAR msg) w)) \/
     (tag = lit "+input" /\
      snd (processMessage deriveChannelId config msg w)
      = snd (handleRegisterInput deriveChannelId config (split BAR msg) w)) \/
     (tag = lit "-input" /\
      snd (processMessage deriveChannelId config msg w)
      = snd (handleDeregisterInput deriveChannelId config (split BAR msg) w)) \/
     snd (processMessage deriveChannelId config msg w) = w \/
     snd (processMessage deriveChannelId config msg w)
     = mkWorld (inputs w)
         (trace w ++ [LoggerError (lit "Unknown message type: " ++ tag)])).
Proof.
  destruct (item_split_0 BAR msg) as [tag Htag]. exists tag.
  split; [exact Htag|].
  destruct (getMessageHandler deriveChannelId (Str tag))
    as [[handler|call]|] eqn:E.
  - destruct (getMessageHandler_Own _ E) as [[-> ->]|[[-> ->]|[-> ->]]].
    + left. split; [reflexivity|].
      rewrite processMessage_msg by exact Htag. reflexivity.
    + right. left. split; [reflexivity|].
      rewrite processMessage_input by exact Htag. reflexivity.
    + right. right. left. split; [reflexivity|].
      rewrite processMessage_deinput by exact Htag. reflexivity.
  - right. right. right. left.
    unfold processMessage. rewrite Htag, E. reflexivity.
  - right. right. right. right.
    unfold processMessage. rewrite Htag, E. reflexivity.
Qed.

(** A message reads the registry only, and adds to the calls made. *)
Lemma processMessage_frame config msg w :
  snd (processMessage deriveChannelId config msg w) =
  mkWorld
    (inputs (snd (processMessage deriveChannelId config msg (bare w))))
    (trace w ++
     trace (snd (processMessage deriveChannelId config msg (bare w)))).
Proof.
  destruct (item_split_0 BAR msg) as [tag Htag].
  destruct (getMessageHandler deriveChannelId (Str tag))
    as [[handler|call]|] eqn:E.
  - destruct (getMessageHandler_Own _ E) as [[-> ->]|[[-> ->]|[-> ->]]].
    + rewrite !processMessage_msg by exact Htag.
      rewrite !handleNewMessage_run. reflexivity.
    + rewrite !processMessage_input by exact Htag.
      rewrite !handleRegisterInput_run. reflexivity.
    + rewrite !processMessage_deinput by exact Htag.
      rewrite !handleDeregisterInput_run. reflexivity.
  - unfold processMessage. rewrite Htag, E. unfold ret, bare. simpl.
    rewrite app_nil_r. destruct w. reflexivity.
  - unfold processMessage. rewrite Htag, E. reflexivity.
Qed.

Lemma forEach_frame config msgs w :
  snd (forEach (processMessage deriveChannelId config) msgs w) =
  mkWorld
    (inputs (snd (forEach (processMessage deriveChannelId config) msgs
                    (bare w))))
    (trace w ++
     trace (snd (forEach (processMessage deriveChannelId config) msgs
                   (bare w)))).
Proof.
  revert w. induction msgs as [|msg msgs IH]; intros w.
  - simpl. rewrite app_nil_r. destruct w. reflexivity.
  - rewrite !forEach_cons.
    rewrite (IH (snd (processMessage deriveChannelId config msg w))).
    rewrite (IH (snd (processMessage deriveChannelId config msg (bare w)))).
    rewrite (processMessage_frame config msg w).
    unfold bare at 1 3 5. simpl inputs. simpl trace.
    rewrite <- app_assoc. reflexivity.
Qed.

(** A property of the calls of each message is one of the calls of a
    batch. *)
Lemma forEach_Forall (P : Effect -> Prop) config :
  (forall msg r,
      Forall P (trace (snd (processMessage deriveChannelId config msg
                              (mkWorld r []))))) ->
  forall msgs r,
    Forall P (trace (snd (forEach (processMessage deriveChannelId config)
                            msgs (mkWorld r [])))).
Proof.
  intros Hone msgs. induction msgs as [|msg msgs IH]; intros r.
  - constructor.
  - rewrite forEach_cons, forEach_frame. simpl trace.
    apply Forall_app. split.
    + rewrite (processMessage_frame config msg (mkWorld r [])).
      simpl. apply Hone.
    + apply IH.
Qed.

End Frames.

(** ** Registration and deregistration events *)

Section InputEvents.

Variable deriveChannelId : Value -> Value -> jsstring.

(** X1.  An ['+input'] message calls [inputs.add] and emits one ['+input']
    event to all browsers, whatever rooms they joined, with the stream, the
    source and the channel identifier; fields after the third are ignored
    and nothing is logged, with or without debug. *)
Theorem register_input_reaches_all config msg w :
  item (split BAR msg) 0 = Str (lit "+input") ->
  let stream := item (split BAR msg) 1 in
  let source := item (split BAR msg) 2 in
  let added := InputRegistry.add deriveChannelId stream source (inputs w) in
  let registration := inputObject stream source (fst added) in
  let effects :=
    [InputsAdd stream source; EmitAll (Str (lit "+input")) registration] in
  processMessage deriveChannelId config msg w
    = (Fulfilled, mkWorld (snd added) (trace w ++ effects)) /\
  (forall v, received v effects = [(Str (lit "+input"), registration)]) /\
  In (stream, source) (InputRegistry.pairs (snd added)).
Proof.
  intros Htag. cbv zeta. split; [|split].
  - rewrite processMessage_input by exact Htag.
    rewrite handleRegisterInput_run, Htag. reflexivity.
  - reflexivity.
  - destruct (RegistryFacts.lookup_add deriveChannelId
                (item (split BAR msg) 1) (item (split BAR msg) 2) (inputs w))
      as (i & Hi & _).
    apply RegistryFacts.lookup_Some in Hi. destruct Hi as (Hin & H1 & H2).
    unfold InputRegistry.pairs, InputRegistry.getInputs.
    apply in_map_iff. exists i. rewrite H1, H2. auto.
Qed.

(** X2.  A ['-input'] message calls [inputs.remove] and emits one
    ['-input'] event to all browsers, registered pair or not, with the
    identifier [remove] returned; afterwards the pair is not listed. *)
Theorem deregister_input_reaches_all config msg w :
  item (split BAR msg) 0 = Str (lit "-input") ->
  let stream := item (split BAR msg) 1 in
  let source := item (split BAR msg) 2 in
  let removed :=
    InputRegistry.remove deriveChannelId stream source (inputs w) in
  let deregistration := inputObject stream source (fst removed) in
  let effects :=
    [InputsRemove stream source;
     EmitAll (Str (lit "-input")) deregistration] in
  processMessage deriveChannelId config msg w
    = (Fulfilled, mkWorld (snd removed) (trace w ++ effects)) /\
  (forall v, received v effects = [(Str (lit "-input"), deregistration)]) /\
  ~ In (stream, source) (InputRegistry.pairs (snd removed)).
Proof.
  intros Htag. cbv zeta. split; [|split].
  - rewrite processMessage_deinput by exact Htag.
    rewrite handleDeregisterInput_run, Htag. reflexivity.
  - reflexivity.
  - apply RegistryFacts.remove_not_In.
Qed.

(** X3.  A ['+msg'] message of at most three fields broadcasts the empty
    string as its payload; with two fields its source is [undefined], with
    one field its stream too. *)
Theorem short_message_empty_payload config msg w :
  item (split BAR msg) 0 = Str (lit "+msg") ->
  length (split BAR msg) <= 3 ->
  let stream := item (split BAR msg) 1 in
  let source := item (split BAR msg) 2 in
  let added := InputRegistry.add deriveChannelId stream source (inputs w) in
  processMessage deriveChannelId config msg w
    = (Fulfilled,
       mkWorld (snd added)
         (trace w ++
          InputsAdd stream source ::
          EmitTo (fst added) (Str (lit "+msg"))
            (messageObject (fst added) [] stream source) ::
          EmitAll (Str (lit "+ping")) (pingObject (fst added) stream source) ::
          (if debug config then [LoggerDebug msg] else []))) /\
  (length (split BAR msg) <= 2 -> source = Undefined) /\
  (length (split BAR msg) <= 1 -> stream = Undefined).
Proof.
  intros Htag Hlen. cbv zeta. split; [|split].
  - rewrite processMessage_msg by exact Htag.
    rewrite handleNewMessage_run, join_split, Htag.
    rewrite (skipn_all2 (n := 3) (split BAR msg)) by exact Hlen.
    reflexivity.
  - intros H. unfold item.
    rewrite (proj2 (nth_error_None (split BAR msg) 2)) by lia. reflexivity.
  - intros H. unfold item.
    rewrite (proj2 (nth_error_None (split BAR msg) 1)) by lia. reflexivity.
Qed.

(** X4.  A segment that starts with whitespace is kept as it is, so its tag
    starts with that whitespace and is no tag of a handler: the segment is
    reported as an unknown message type and does nothing else. *)
Theorem leading_whitespace_unknown config (c : N) (rest : jsstring) w :
  isWhiteSpace c = true ->
  exists tag,
    item (split BAR (c :: rest)) 0 = Str (c :: tag) /\
    processMessage deriveChannelId config (c :: rest) w
    = (Fulfilled,
       mkWorld (inputs w)
         (trace w ++
          [LoggerError (lit "Unknown message type: " ++ c :: tag)])).
Proof.
  intros Hc.
  assert (Hbar : c <> BAR) by (intros ->; discriminate Hc).
  destruct (split_cons_other rest Hbar) as (tag & pieces & _ & Hsplit).
  exists tag.
  assert (Htag : item (split BAR (c :: rest)) 0 = Str (c :: tag))
    by (rewrite Hsplit; reflexivity).
  split; [exact Htag|].
  apply processMessage_unknown; [exact Htag|].
  split; intros Hin.
  - unfold handlerTags in Hin. simpl in Hin.
    repeat (destruct Hin as [Hin|Hin];
            [injection Hin as <-; discriminate Hc|]).
    exact Hin.
  - unfold inheritedNames in Hin. simpl in Hin.
    repeat (destruct Hin as [Hin|Hin];
            [injection Hin as <-; discriminate Hc|]).
    exact Hin.
Qed.

End InputEvents.

(** ** Chunks *)

Section Chunks.

Variable deriveChannelId : Value -> Value -> jsstring.

Lemma parseMessages_app (t u : jsstring) :
  parseMessages (t ++ NUL :: u)
  = parseMessages (t ++ [NUL]) ++ parseMessages u.
Proof.
  unfold parseMessages, Buffer_toString.
  destruct (exists_last (split_not_nil NUL u)) as (pieces & final & Hu).
  rewrite !split_app, Hu. change (split NUL []) with [[] : jsstring].
  rewrite app_assoc, !slice_init. apply filter_app.
Qed.

Lemma parseMessages_unterminated (u : jsstring) :
  ~ In NUL u -> parseMessages u = [].
Proof.
  intros Hu. unfold parseMessages, Buffer_toString.
  rewrite split_no_sep by exact Hu. reflexivity.
Qed.

(** X5.  What follows the last ['\0'] of a chunk is dropped: a chunk
    without ['\0'] does nothing at all, and a chunk does what it would do
    if it ended at its last ['\0']. *)
Theorem unterminated_tail_dropped config (t u : jsstring) w :
  ~ In NUL u ->
  broadcastMessage deriveChannelId config u w = (tt, w) /\
  broadcastMessage deriveChannelId config (t ++ NUL :: u) w
  = broadcastMessage deriveChannelId config (t ++ [NUL]) w.
Proof.
  intros Hu. unfold broadcastMessage. split.
  - rewrite parseMessages_unterminated by exact Hu. reflexivity.
  - rewrite parseMessages_app, (@parseMessages_unterminated u Hu).
    rewrite app_nil_r. reflexivity.
Qed.


Lemma filter_none (A : Type) (f : A -> bool) (l : list A) :
  (forall x, In x l -> f x = false) -> filter f l = [].
Proof.
  induction l as [|x l IH]; intros H; [reflexivity|].
  simpl. rewrite (H x) by (left; reflexivity).
  apply IH. intros y Hy. apply H. right. exact Hy.
Qed.

(** X7.  A chunk of terminators and whitespace only, such as the newlines
    of a keep-alive, dispatches nothing. *)
Theorem blank_chunk_ignored config (data : Buffer) w :
  blankChunk (Buffer_toString data) = true ->
  broadcastMessage deriveChannelId config data w = (tt, w).
Proof.
  intros Hblank. unfold broadcastMessage.
  assert (Hnone : parseMessages data = []).
  { unfold parseMessages.
    destruct (exists_last (split_not_nil NUL (Buffer_toString data)))
      as (pieces & final & Hsplit).
    rewrite Hsplit, slice_init.
    apply filter_none. intros p Hp.
    rewrite truthy_trim. apply negb_false_iff.
    apply forallb_forall. intros c Hc.
    assert (Hin : In c (Buffer_toString data)).
    { apply (@split_chars NUL (Buffer_toString data) p c); [|exact Hc].
      rewrite Hsplit. apply in_or_app. left. exact Hp. }
    unfold blankChunk in Hblank. rewrite forallb_forall in Hblank.
    specialize (Hblank c Hin). apply orb_true_iff in Hblank.
    destruct Hblank as [Hws|Hnul]; [exact Hws|].
    apply N.eqb_eq in Hnul. subst c. exfalso.
    assert (Hall := split_pieces NUL (Buffer_toString data)).
    rewrite Forall_forall in Hall. apply (Hall p); [|exact Hc].
    rewrite Hsplit. apply in_or_app. left. exact Hp. }
  rewrite Hnone. reflexivity.
Qed.

End Chunks.

(** ** What no chunk does *)

Section Invariants.

Variable deriveChannelId : Value -> Value -> jsstring.

Ltac by_tag msg tag Htag E :=
  destruct (item_split_0 BAR msg) as [tag Htag];
  destruct (getMessageHandler deriveChannelId (Str tag))
    as [[?handler|?call]|] eqn:E;
  [ destruct (@getMessageHandler_Own deriveChannelId _ _ E)
      as [[-> ->]|[[-> ->]|[-> ->]]];
    [ rewrite ?processMessage_msg by exact Htag;
      rewrite ?handleNewMessage_run
    | rewrite ?processMessage_input by exact Htag;
      rewrite ?handleRegisterInput_run
    | rewrite ?processMessage_deinput by exact Htag;
      rewrite ?handleDeregisterInput_run ]
  | unfold processMessage; rewrite Htag, E
  | unfold processMessage; rewrite Htag, E ].

Lemma protocolEmit_message config msg r :
  Forall (fun e => protocolEmit e = true)
    (trace (snd (processMessage deriveChannelId config msg (mkWorld r [])))).
Proof.
  by_tag msg tag Htag E; cbv zeta; simpl trace; rewrite ?Htag.
  - repeat constructor.
    + simpl. rewrite eqb_refl. reflexivity.
    + destruct (debug config); repeat constructor.
  - repeat constructor.
  - repeat constructor.
  - constructor.
  - repeat constructor.
Qed.

(** X8.  Whatever the chunk, a room is only ever sent ['+msg'] events, each
    to the room named by the channel identifier its object carries, and
    all browsers are only ever sent ['+ping'], ['+input'] and ['-input']
    events. *)
Theorem only_protocol_events config (data : Buffer) w :
  exists effects,
    trace (snd (broadcastMessage deriveChannelId config data w))
    = trace w ++ effects /\
    Forall (fun e => protocolEmit e = true) effects.
Proof.
  unfold broadcastMessage. rewrite forEach_frame. simpl trace.
  eexists. split; [reflexivity|].
  apply forEach_Forall. intros msg r. apply protocolEmit_message.
Qed.

Lemma debug_message on off msg r :
  debug on = true -> debug off = false ->
  inputs (snd (processMessage deriveChannelId on msg (mkWorld r [])))
  = inputs (snd (processMessage deriveChannelId off msg (mkWorld r []))) /\
  filter (fun e => negb (isLoggerDebug e))
    (trace (snd (processMessage deriveChannelId on msg (mkWorld r []))))
  = trace (snd (processMessage deriveChannelId off msg (mkWorld r []))).
Proof.
  intros Hon Hoff.
  by_tag msg tag Htag E; cbv zeta; rewrite ?Hon, ?Hoff; split; reflexivity.
Qed.

Lemma debug_batch on off msgs r :
  debug on = true -> debug off = false ->
  inputs (snd (forEach (processMessage deriveChannelId on) msgs
                 (mkWorld r [])))
  = inputs (snd (forEach (processMessage deriveChannelId off) msgs
                   (mkWorld r []))) /\
  filter (fun e => negb (isLoggerDebug e))
    (trace (snd (forEach (processMessage deriveChannelId on) msgs
                   (mkWorld r []))))
  = trace (snd (forEach (processMessage deriveChannelId off) msgs
                  (mkWorld r []))).
Proof.
  intros Hon Hoff. revert r. induction msgs as [|msg msgs IH]; intros r.
  - split; reflexivity.
  - rewrite !forEach_cons.
    rewrite (forEach_frame deriveChannelId on msgs).
    rewrite (forEach_frame deriveChannelId off msgs).
    destruct (@debug_message on off msg r Hon Hoff) as [Hr Ht].
    unfold bare. simpl inputs. simpl trace. rewrite Hr.
    destruct (IH (inputs (snd (processMessage deriveChannelId off msg
                                 (mkWorld r []))))) as [IHr IHt].
    split; [exact IHr|].
    rewrite filter_app, Ht, IHt. reflexivity.
Qed.

(** X9.  The debug flag changes nothing but the log: with it a chunk leaves
    the same registry and makes the same calls as without it, plus calls
    of [logger.debug], and without it [logger.debug] is never called. *)
Theorem debug_only_logs on off (data : Buffer) w :
  debug on = true -> debug off = false ->
  exists withDebug without,
    snd (broadcastMessage deriveChannelId on data w)
    = mkWorld (inputs (snd (broadcastMessage deriveChannelId off data w)))
        (trace w ++ withDebug) /\
    trace (snd (broadcastMessage deriveChannelId off data w))
    = trace w ++ without /\
    filter (fun e => negb (isLoggerDebug e)) withDebug = without /\
    Forall (fun e => isLoggerDebug e = false) without.
Proof.
  intros Hon Hoff. unfold broadcastMessage.
  rewrite (forEach_frame deriveChannelId on).
  rewrite (forEach_frame deriveChannelId off).
  destruct (@debug_batch on off (parseMessages data) (inputs w) Hon Hoff)
    as [Hr Ht].
  unfold bare. simpl inputs. simpl trace.
  eexists. eexists. split; [rewrite Hr; reflexivity|].
  split; [reflexivity|]. split; [exact Ht|].
  rewrite <- Ht. apply Forall_forall. intros e He.
  apply filter_In in He. apply negb_true_iff. tauto.
Qed.

Lemma reachable_message config msg w :
  InputRegistry.reachable deriveChannelId (inputs w) ->
  InputRegistry.reachable deriveChannelId
    (inputs (snd (processMessage deriveChannelId config msg w))).
Proof.
  intros Hr.
  by_tag msg tag Htag E; cbv zeta; simpl inputs;
    try exact Hr; try (apply InputRegistry.reachable_add; exact Hr).
  apply InputRegistry.reachable_remove. exact Hr.
Qed.

(** X10.  The server changes its registry through [add] and [remove] only:
    whatever chunks arrive, in whatever order, the registry stays one that
    these two calls build from the empty registry, with one Input per
    (stream, source) pair. *)
Theorem registry_stays_reachable config (chunks : list Buffer) w :
  InputRegistry.reachable deriveChannelId (inputs w) ->
  InputRegistry.reachable deriveChannelId
    (inputs (snd (onData deriveChannelId config chunks w))) /\
  NoDup (InputRegistry.pairs
           (inputs (snd (onData deriveChannelId config chunks w)))).
Proof.
  intros Hr.
  assert (Hbatch : forall msgs w0,
             InputRegistry.reachable deriveChannelId (inputs w0) ->
             InputRegistry.reachable deriveChannelId
               (inputs (snd (forEach (processMessage deriveChannelId config)
                               msgs w0)))).
  { induction msgs as [|msg msgs IH]; intros w0 H0; [exact H0|].
    rewrite forEach_cons. apply IH. apply reachable_message. exact H0. }
  assert (Hall : InputRegistry.reachable deriveChannelId
                   (inputs (snd (onData deriveChannelId config chunks w)))).
  { unfold onData. revert w Hr.
    induction chunks as [|data chunks IH]; intros w Hr; [exact Hr|].
    rewrite forEach_cons. apply IH. unfold broadcastMessage.
    apply Hbatch. exact Hr. }
  split; [exact Hall|]. exact (RegistryFacts.reachable_NoDup Hall).
Qed.

(** The tag of a segment, as the router reads it. *)
Definition tagOf (msg : jsstring) : jsstring :=
  toString (item (split BAR msg) 0).

Lemma no_handler_message config msg r :
  ~ In (tagOf msg) handlerTags ->
  inputs (snd (processMessage deriveChannelId config msg (mkWorld r []))) = r /\
  forallb isLoggerCall
    (trace (snd (processMessage deriveChannelId config msg (mkWorld r []))))
  = true.
Proof.
  intros Hno. unfold tagOf in Hno.
  by_tag msg tag Htag E; rewrite Htag in Hno; simpl toString in Hno;
    try (exfalso; apply Hno; unfold handlerTags; simpl; tauto);
    split; reflexivity.
Qed.

Lemma no_handler_batch config msgs r :
  Forall (fun msg => ~ In (tagOf msg) handlerTags) msgs ->
  inputs (snd (forEach (processMessage deriveChannelId config) msgs
                 (mkWorld r []))) = r /\
  forallb isLoggerCall
    (trace (snd (forEach (processMessage deriveChannelId config) msgs
                   (mkWorld r []))))
  = true.
Proof.
  induction 1 as [|msg msgs Hmsg Hmsgs IH]; [split; reflexivity|].
  rewrite forEach_cons, forEach_frame. unfold bare.
  destruct (@no_handler_message config msg r Hmsg) as [Hr Hlog].
  rewrite Hr. simpl inputs. simpl trace. destruct IH as [IHr IHlog].
  split; [exact IHr|]. rewrite forallb_app, Hlog, IHlog. reflexivity.
Qed.

(** X11.  A chunk none of whose segments has the tag of a handler leaves
    the registry as it is and emits nothing: all it can do is log. *)
Theorem no_handler_tag_no_effect config (data : Buffer) w :
  Forall (fun msg => ~ In (tagOf msg) handlerTags) (parseMessages data) ->
  exists log,
    snd (broadcastMessage deriveChannelId config data w)
    = mkWorld (inputs w) (trace w ++ log) /\
    forallb isLoggerCall log = true.
Proof.
  intros Hall. unfold broadcastMessage. rewrite forEach_frame.
  unfold bare.
  destruct (@no_handler_batch config (parseMessages data) (inputs w) Hall)
    as [Hr Hlog].
  rewrite Hr. eexists. split; [reflexivity | exact Hlog].
Qed.

End Invariants.

(** ** The syslog feed *)

Section Syslog.

Variable deriveChannelId : Value -> Value -> jsstring.

(** The frame of a ['+msg'] message, field by field. *)
Lemma processMessage_fields config (stream source payload : jsstring) w :
  ~ In BAR stream -> ~ In BAR source ->
  processMessage deriveChannelId config
    (lit "+msg" ++ BAR :: stream ++ BAR :: source ++ BAR :: payload) w
  = (Fulfilled,
     let added :=
       InputRegistry.add deriveChannelId (Str stream) (Str source)
         (inputs w) in
     mkWorld (snd added)
       (trace w ++
        InputsAdd (Str stream) (Str source) ::
        EmitTo (fst added) (Str (lit "+msg"))
          (messageObject (fst added) payload (Str stream) (Str source)) ::
        EmitAll (Str (lit "+ping"))
          (pingObject (fst added) (Str stream) (Str source)) ::
        (if debug config
         then [LoggerDebug
                 (lit "+msg" ++
                  BAR :: stream ++ BAR :: source ++ BAR :: payload)]
         else []))).
Proof.
  intros Hstream Hsource.
  assert (Htag : ~ In BAR (lit "+msg")) by (apply lacks_spec; reflexivity).
  assert (Hsplit :
            split BAR
              (lit "+msg" ++ BAR :: stream ++ BAR :: source ++ BAR :: payload)
            = lit "+msg" :: stream :: source :: split BAR payload).
  { rewrite !split_app_sep by assumption. reflexivity. }
  rewrite processMessage_msg by (rewrite Hsplit; reflexivity).
  rewrite handleNewMessage_run, join_split, Hsplit.
  simpl skipn. rewrite join_split. reflexivity.
Qed.

Definition syslogFrame : jsstring := lit "+msg|syslog|localhost|".

Lemma syslog_text (text : jsstring) :
  Buffer_toString (Buffer_from (syslogFrame ++ text ++ [NUL]))
  = syslogFrame ++ toWellFormed text ++ [NUL].
Proof.
  unfold Buffer_toString, Buffer_from.
  rewrite toWellFormed_prefix by reflexivity.
  rewrite (@toWellFormed_cut (length text) text [] NUL (le_n _) eq_refl).
  reflexivity.
Qed.

Lemma syslogFrame_message config (payload : jsstring) w :
  processMessage deriveChannelId config (syslogFrame ++ payload) w
  = (Fulfilled,
     let syslog := Str (lit "syslog") in
     let localhost := Str (lit "localhost") in
     let added :=
       InputRegistry.add deriveChannelId syslog localhost (inputs w) in
     mkWorld (snd added)
       (trace w ++
        InputsAdd syslog localhost ::
        EmitTo (fst added) (Str (lit "+msg"))
          (messageObject (fst added) payload syslog localhost) ::
        EmitAll (Str (lit "+ping"))
          (pingObject (fst added) syslog localhost) ::
        (if debug config
         then [LoggerDebug (syslogFrame ++ payload)] else []))).
Proof.
  change (syslogFrame ++ payload)
    with (lit "+msg" ++
          BAR :: lit "syslog" ++ BAR :: lit "localhost" ++ BAR :: payload).
  apply processMessage_fields; apply lacks_spec; reflexivity.
Qed.

Lemma forEach_nil (A B : Type) (f : A -> M B) (w : World) :
  forEach f [] w = (tt, w).
Proof. reflexivity. Qed.

Lemma join_one_frame (x : jsstring) :
  join NUL ([x] ++ [[]]) = x ++ [NUL].
Proof. reflexivity. Qed.

Lemma join_two_frames (x y : jsstring) :
  join NUL ([x; y] ++ [[]]) = x ++ NUL :: y ++ [NUL].
Proof. reflexivity. Qed.

Lemma filter_keep (A : Type) (f : A -> bool) (x : A) (l : list A) :
  f x = true -> filter f (x :: l) = x :: filter f l.
Proof. intros H. simpl. rewrite H. reflexivity. Qed.

Lemma syslogFrame_not_blank (payload : jsstring) :
  negb (onlyWhiteSpace (syslogFrame ++ payload)) = true.
Proof. reflexivity. Qed.

Lemma syslogFrame_no_NUL (payload : jsstring) :
  ~ In NUL payload -> ~ In NUL (syslogFrame ++ payload).
Proof.
  intros Hp Hin. apply in_app_or in Hin. destruct Hin as [Hin|Hin].
  - revert Hin. apply lacks_spec. reflexivity.
  - exact (Hp Hin).
Qed.

(** X12.  A syslog record whose message holds no ['\0'] is broadcast as one
    ['+msg'] message of stream [syslog] and source [localhost]; its payload
    is the message, every ['|'] included, as it comes back from UTF-8:
    unchanged when it holds no surrogate. *)
Theorem syslog_message_broadcast config (message : Value) w :
  ~ In NUL (toString message) ->
  let payload := toWellFormed (toString message) in
  let syslog := Str (lit "syslog") in
  let localhost := Str (lit "localhost") in
  let added :=
    InputRegistry.add deriveChannelId syslog localhost (inputs w) in
  onSyslogMessage deriveChannelId config message w
  = (tt,
     mkWorld (snd added)
       (trace w ++
        InputsAdd syslog localhost ::
        EmitTo (fst added) (Str (lit "+msg"))
          (messageObject (fst added) payload syslog localhost) ::
        EmitAll (Str (lit "+ping"))
          (pingObject (fst added) syslog localhost) ::
        (if debug config
         then [LoggerDebug (lit "+msg|syslog|localhost|" ++ payload)]
         else []))) /\
  (forallb (fun c => negb (isSurrogate c)) (toString message) = true ->
   payload = toString message).
Proof.
  intros Hnul. cbv zeta. split.
  - unfold onSyslogMessage, broadcastMessage.
    assert (Hp : ~ In NUL (toWellFormed (toString message)))
      by (apply (@toWellFormed_NUL (length (toString message)));
          [apply le_n | exact Hnul]).
    rewrite (@parseMessages_pieces _
               [syslogFrame ++ toWellFormed (toString message)] []).
    + rewrite filter_keep by apply syslogFrame_not_blank.
      rewrite forEach_cons, forEach_nil, syslogFrame_message.
      reflexivity.
    + constructor; [apply syslogFrame_no_NUL; exact Hp|].
      constructor; [intros [] | constructor].
    + fold syslogFrame. rewrite syslog_text, join_one_frame.
      apply app_assoc.
  - intros Hs.
    rewrite <- (app_nil_r (toString message)) at 1.
    rewrite toWellFormed_prefix by exact Hs. apply app_nil_r.
Qed.

(** X13.  A ['\0'] inside the message of a syslog record ends the message
    there: what follows it is processed as a frame of the protocol of its
    own, unless it is blank. *)
Theorem syslog_message_split_at_NUL config (head tail : jsstring) w :
  ~ In NUL head -> ~ In NUL tail ->
  onSyslogMessage deriveChannelId config (Str (head ++ NUL :: tail)) w
  = forEach (processMessage deriveChannelId config)
      ((lit "+msg|syslog|localhost|" ++ toWellFormed head) ::
       (if onlyWhiteSpace (toWellFormed tail) then []
        else [toWellFormed tail])) w.
Proof.
  intros Hhead Htail. unfold onSyslogMessage, broadcastMessage.
  assert (Hh : ~ In NUL (toWellFormed head))
    by (apply (@toWellFormed_NUL (length head)); [apply le_n | exact Hhead]).
  assert (Ht : ~ In NUL (toWellFormed tail))
    by (apply (@toWellFormed_NUL (length tail)); [apply le_n | exact Htail]).
  rewrite (@parseMessages_pieces _
             [syslogFrame ++ toWellFormed head; toWellFormed tail] []).
  - rewrite filter_keep by apply syslogFrame_not_blank.
    cbn [filter]. destruct (onlyWhiteSpace (toWellFormed tail)); reflexivity.
  - constructor; [apply syslogFrame_no_NUL; exact Hh|].
    constructor; [exact Ht|].
    constructor; [intros [] | constructor].
  - fold syslogFrame. simpl toString. rewrite syslog_text.
    rewrite (@toWellFormed_cut (length head) head tail NUL (le_n _) eq_refl).
    rewrite join_two_frames, <- !app_assoc. reflexivity.
Qed.

End Syslog.

(** ** Browsers *)

Section Browsers.

Variable deriveChannelId : Value -> Value -> jsstring.

Lemma lookup_is_Input stream source r i :
  InputRegistry.lookup stream source r = Some i ->
  i = InputRegistry.mkInput stream source (InputRegistry.channelId i) /\
  In i r.
Proof.
  intros H. apply RegistryFacts.lookup_Some in H.
  destruct H as (Hin & H1 & H2). destruct i as [s c id].
  simpl in *. subst. auto.
Qed.

(** X14.  A browser that connects after a message is told of exactly the
    Inputs then registered: after a ['+msg'] or ['+input'] message the
    replay holds an ['+input'] event for its pair with the channel
    identifier the message was broadcast under, and after a ['-input']
    message it holds no event for its pair. *)
Theorem replay_follows_registry config msg tag w :
  item (split BAR msg) 0 = Str tag -> In tag handlerTags ->
  let stream := item (split BAR msg) 1 in
  let source := item (split BAR msg) 2 in
  let after := snd (processMessage deriveChannelId config msg w) in
  length (replayInputs (inputs after))
    = length (InputRegistry.getInputs (inputs after)) /\
  if JS.eqb tag (lit "-input")
  then forall event input,
      In (event, input) (replayInputs (inputs after)) ->
      (InputRegistry.stream input, InputRegistry.source input)
        <> (stream, source)
  else In (Str (lit "+input"),
           InputRegistry.mkInput stream source
             (fst (InputRegistry.add deriveChannelId stream source
                     (inputs w))))
         (replayInputs (inputs after)).
Proof.
  intros Htag Hin. cbv zeta.
  split; [apply length_map|].
  assert (Hadded :
            In (Str (lit "+input"),
                InputRegistry.mkInput (item (split BAR msg) 1)
                  (item (split BAR msg) 2)
                  (fst (InputRegistry.add deriveChannelId
                          (item (split BAR msg) 1) (item (split BAR msg) 2)
                          (inputs w))))
              (replayInputs
                 (snd (InputRegistry.add deriveChannelId
                         (item (split BAR msg) 1) (item (split BAR msg) 2)
                         (inputs w))))).
  { destruct (RegistryFacts.lookup_add deriveChannelId
                (item (split BAR msg) 1) (item (split BAR msg) 2) (inputs w))
      as (i & Hi & Hid).
    apply lookup_is_Input in Hi. destruct Hi as [Hi Hini].
    rewrite <- Hid, <- Hi. unfold replayInputs, InputRegistry.getInputs.
    apply in_map_iff. exists i. auto. }
  unfold handlerTags in Hin. simpl in Hin.
  destruct Hin as [<-|[<-|[<-|[]]]].
  - change (JS.eqb (lit "+msg") (lit "-input")) with false. cbv iota.
    rewrite processMessage_msg by exact Htag.
    rewrite handleNewMessage_run. exact Hadded.
  - change (JS.eqb (lit "+input") (lit "-input")) with false. cbv iota.
    rewrite processMessage_input by exact Htag.
    rewrite handleRegisterInput_run. exact Hadded.
  - change (JS.eqb (lit "-input") (lit "-input")) with true. cbv iota.
    rewrite processMessage_deinput by exact Htag.
    rewrite handleDeregisterInput_run. cbv zeta. simpl inputs.
    intros event input Hreplay Hpair.
    apply (RegistryFacts.remove_not_In deriveChannelId
             (item (split BAR msg) 1) (item (split BAR msg) 2) (inputs w)).
    unfold replayInputs in Hreplay. apply in_map_iff in Hreplay.
    destruct Hreplay as (i & Hi & Hini). injection Hi as _ ->.
    rewrite <- Hpair. unfold InputRegistry.pairs.
    apply in_map_iff. exists input. auto.
Qed.

Lemma subscribed_join v room : subscribed (socket_join v room) room = true.
Proof.
  unfold socket_join. destruct (subscribed v room) eqn:E; [exact E|].
  unfold subscribed. simpl. rewrite eqb_refl. reflexivity.
Qed.

Lemma subscribed_leave v room : subscribed (socket_leave v room) room = false.
Proof.
  unfold socket_leave, subscribed. simpl.
  induction (rooms v) as [|r rs IH]; [reflexivity|].
  simpl. destruct (JS.eqb room r) eqn:E; simpl; [exact IH|].
  rewrite E. exact IH.
Qed.

Lemma subscribed_join_other v room other :
  other <> room -> subscribed (socket_join v other) room = subscribed v room.
Proof.
  intros Hne. unfold socket_join.
  destruct (subscribed v other); [reflexivity|].
  unfold subscribed. simpl.
  assert (E : JS.eqb room other = false)
    by (apply eqb_neq; congruence).
  rewrite E. reflexivity.
Qed.

Lemma subscribed_leave_other v room other :
  other <> room -> subscribed (socket_leave v other) room = subscribed v room.
Proof.
  intros Hne. unfold socket_leave, subscribed. simpl.
  induction (rooms v) as [|r rs IH]; [reflexivity|].
  simpl. destruct (JS.eqb other r) eqn:E; simpl.
  - apply eqb_eq in E. subst r.
    assert (E' : JS.eqb room other = false) by (apply eqb_neq; congruence).
    rewrite E'. exact IH.
  - rewrite IH. reflexivity.
Qed.

(** X15.  ['+activate'] and ['-activate'] decide who gets the messages of a
    channel: a browser that activated the channel of a ['+msg'] message
    receives the message event and the ping, one that deactivated it
    receives the ping only, and activating or deactivating another channel
    changes nothing of what a browser receives of the message. *)
Theorem activation_selects_messages config msg w v :
  item (split BAR msg) 0 = Str (lit "+msg") ->
  let msgParts := split BAR msg in
  let stream := item msgParts 1 in
  let source := item msgParts 2 in
  let inputName :=
    fst (InputRegistry.add deriveChannelId stream source (inputs w)) in
  let message :=
    (Str (lit "+msg"),
     messageObject inputName (join BAR (skipn 3 msgParts)) stream source) in
  let ping := (Str (lit "+ping"), pingObject inputName stream source) in
  exists effects,
    trace (snd (processMessage deriveChannelId config msg w))
      = trace w ++ effects /\
    received (onActivate v inputName) effects = [message; ping] /\
    received (onDeactivate v inputName) effects = [ping] /\
    (forall other, other <> inputName ->
       received (onActivate v other) effects = received v effects /\
       received (onDeactivate v other) effects = received v effects).
Proof.
  intros Htag. cbv zeta.
  rewrite processMessage_msg by exact Htag.
  rewrite handleNewMessage_run, Htag. cbv zeta. simpl trace.
  eexists. split; [reflexivity|].
  unfold onActivate, onDeactivate, received. cbn [flat_map delivered].
  rewrite subscribed_join, subscribed_leave.
  split; [destruct (debug config); reflexivity|].
  split; [destruct (debug config); reflexivity|].
  intros other Hother.
  rewrite subscribed_join_other, subscribed_leave_other by exact Hother.
  split; destruct (debug config); reflexivity.
Qed.

End Browsers.

(** ** More concrete runs *)

Definition verbose : ServerConfig := mkConfig true.

(** ["+input|app|host1|extra"]: the fourth field is ignored. *)
Lemma register_input_reaches_all_witness :
  item (split BAR (lit "+input|app|host1|extra")) 0 = Str (lit "+input") /\
  processMessage pairChannelId verbose (lit "+input|app|host1|extra")
    emptyWorld
  = (Fulfilled,
     mkWorld [appHost1]
       [InputsAdd appStream host1Source;
        EmitAll (Str (lit "+input"))
          (inputObject appStream host1Source (lit "app|host1"))]).
Proof.
  assert (H : item (split BAR (lit "+input|app|host1|extra")) 0
              = Str (lit "+input")) by reflexivity.
  split; [exact H|].
  exact (proj1 (@register_input_reaches_all pairChannelId verbose
                  (lit "+input|app|host1|extra") emptyWorld H)).
Defined.

(** ["-input|web|host2"] for a pair that was never registered. *)
Lemma deregister_input_reaches_all_witness :
  item (split BAR (lit "-input|web|host2")) 0 = Str (lit "-input") /\
  processMessage pairChannelId quiet (lit "-input|web|host2") emptyWorld
  = (Fulfilled,
     mkWorld []
       [InputsRemove (Str (lit "web")) (Str (lit "host2"));
        EmitAll (Str (lit "-input"))
          (inputObject (Str (lit "web")) (Str (lit "host2"))
             (lit "web|host2"))]).
Proof.
  assert (H : item (split BAR (lit "-input|web|host2")) 0
              = Str (lit "-input")) by reflexivity.
  split; [exact H|].
  exact (proj1 (@deregister_input_reaches_all pairChannelId quiet
                  (lit "-input|web|host2") emptyWorld H)).
Defined.

(** ["+msg|app"]: two fields. *)
Lemma short_message_empty_payload_witness :
  item (split BAR (lit "+msg|app")) 0 = Str (lit "+msg") /\
  length (split BAR (lit "+msg|app")) <= 3 /\
  processMessage pairChannelId quiet (lit "+msg|app") emptyWorld
  = (Fulfilled,
     mkWorld [InputRegistry.mkInput appStream Undefined (lit "app|undefined")]
       [InputsAdd appStream Undefined;
        EmitTo (lit "app|undefined") (Str (lit "+msg"))
          (messageObject (lit "app|undefined") [] appStream Undefined);
        EmitAll (Str (lit "+ping"))
          (pingObject (lit "app|undefined") appStream Undefined)]).
Proof.
  assert (H1 : item (split BAR (lit "+msg|app")) 0 = Str (lit "+msg"))
    by reflexivity.
  assert (H2 : length (split BAR (lit "+msg|app")) <= 3)
    by (apply Nat.leb_le; reflexivity).
  split; [exact H1|]. split; [exact H2|].
  exact (proj1 (@short_message_empty_payload pairChannelId quiet
                  (lit "+msg|app") emptyWorld H1 H2)).
Defined.

(** A line feed before ["+msg|a|b|x"]. *)
Lemma leading_whitespace_unknown_witness :
  isWhiteSpace 10 = true /\
  exists tag,
    item (split BAR (10%N :: lit "+msg|a|b|x")) 0 = Str (10%N :: tag) /\
    processMessage pairChannelId quiet (10%N :: lit "+msg|a|b|x") emptyWorld
    = (Fulfilled,
       mkWorld (inputs emptyWorld)
         (trace emptyWorld ++
          [LoggerError (lit "Unknown message type: " ++ 10%N :: tag)])).
Proof.
  split; [reflexivity|].
  exact (@leading_whitespace_unknown pairChannelId quiet 10%N
           (lit "+msg|a|b|x") emptyWorld eq_refl).
Defined.

(** ["+msg|a|b|hello\0+msg|a|b|wor"]. *)
Lemma unterminated_tail_dropped_witness :
  ~ In NUL (lit "+msg|a|b|wor") /\
  broadcastMessage pairChannelId quiet (lit "+msg|a|b|wor") emptyWorld
    = (tt, emptyWorld) /\
  broadcastMessage pairChannelId quiet
    (lit "+msg|a|b|hello" ++ NUL :: lit "+msg|a|b|wor") emptyWorld
  = broadcastMessage pairChannelId quiet (lit "+msg|a|b|hello" ++ [NUL])
      emptyWorld.
Proof.
  assert (H : ~ In NUL (lit "+msg|a|b|wor")) by (apply lacks_spec; reflexivity).
  split; [exact H|].
  exact (@unterminated_tail_dropped pairChannelId quiet
           (lit "+msg|a|b|hello") (lit "+msg|a|b|wor") emptyWorld H).
Defined.

(** Line feeds, a blank and terminators. *)
Lemma blank_chunk_ignored_witness :
  blankChunk (Buffer_toString [10; 0; 32; 0; 13; 10]%N) = true /\
  broadcastMessage pairChannelId quiet [10; 0; 32; 0; 13; 10]%N emptyWorld
  = (tt, emptyWorld).
Proof.
  split; [reflexivity|].
  exact (@blank_chunk_ignored pairChannelId quiet [10; 0; 32; 0; 13; 10]%N
           emptyWorld eq_refl).
Defined.

(** The trailing-fragment chunk, with and without debug. *)
Lemma debug_only_logs_witness :
  debug verbose = true /\ debug quiet = false /\
  exists withDebug without,
    snd (broadcastMessage pairChannelId verbose helloWorldChunk emptyWorld)
    = mkWorld
        (inputs (snd (broadcastMessage pairChannelId quiet helloWorldChunk
                        emptyWorld)))
        (trace emptyWorld ++ withDebug) /\
    trace (snd (broadcastMessage pairChannelId quiet helloWorldChunk
                  emptyWorld))
    = trace emptyWorld ++ without /\
    filter (fun e => negb (isLoggerDebug e)) withDebug = without /\
    Forall (fun e => isLoggerDebug e = false) without.
Proof.
  split; [reflexivity|]. split; [reflexivity|].
  exact (@debug_only_logs pairChannelId verbose quiet helloWorldChunk
           emptyWorld eq_refl eq_refl).
Defined.

(** Two chunks from the empty world. *)
Lemma registry_stays_reachable_witness :
  InputRegistry.reachable pairChannelId (inputs emptyWorld) /\
  InputRegistry.reachable pairChannelId
    (inputs (snd (onData pairChannelId quiet
                    [lit "+input|app|host1" ++ [NUL];
                     lit "+msg|app|host1|up" ++ [NUL]] emptyWorld))) /\
  NoDup (InputRegistry.pairs
           (inputs (snd (onData pairChannelId quiet
                           [lit "+input|app|host1" ++ [NUL];
                            lit "+msg|app|host1|up" ++ [NUL]] emptyWorld)))).
Proof.
  assert (H : InputRegistry.reachable pairChannelId (inputs emptyWorld))
    by constructor.
  split; [exact H|].
  exact (@registry_stays_reachable pairChannelId quiet
           [lit "+input|app|host1" ++ [NUL];
            lit "+msg|app|host1|up" ++ [NUL]] emptyWorld H).
Defined.

(** ["bogus|a\0constructor|x\0"]: no segment with the tag of a handler. *)
Lemma no_handler_tag_no_effect_witness :
  Forall (fun msg => ~ In (tagOf msg) handlerTags)
    (parseMessages (lit "bogus|a" ++ NUL :: lit "constructor|x" ++ [NUL])) /\
  exists log,
    snd (broadcastMessage pairChannelId quiet
           (lit "bogus|a" ++ NUL :: lit "constructor|x" ++ [NUL]) emptyWorld)
    = mkWorld (inputs emptyWorld) (trace emptyWorld ++ log) /\
    forallb isLoggerCall log = true.
Proof.
  assert (H : Forall (fun msg => ~ In (tagOf msg) handlerTags)
                (parseMessages
                   (lit "bogus|a" ++ NUL :: lit "constructor|x" ++ [NUL]))).
  { change (parseMessages
              (lit "bogus|a" ++ NUL :: lit "constructor|x" ++ [NUL]))
      with [lit "bogus|a"; lit "constructor|x"].
    constructor; [apply mem_false; reflexivity|].
    constructor; [apply mem_false; reflexivity | constructor]. }
  split; [exact H|].
  exact (@no_handler_tag_no_effect pairChannelId quiet
           (lit "bogus|a" ++ NUL :: lit "constructor|x" ++ [NUL])
           emptyWorld H).
Defined.

(** The syslog message ["disk full | /dev/sda1"]. *)
Lemma syslog_message_broadcast_witness :
  ~ In NUL (toString (Str (lit "disk full | /dev/sda1"))) /\
  onSyslogMessage pairChannelId quiet (Str (lit "disk full | /dev/sda1"))
    emptyWorld
  = (tt,
     mkWorld
       [InputRegistry.mkInput (Str (lit "syslog")) (Str (lit "localhost"))
          (lit "syslog|localhost")]
       [InputsAdd (Str (lit "syslog")) (Str (lit "localhost"));
        EmitTo (lit "syslog|localhost") (Str (lit "+msg"))
          (messageObject (lit "syslog|localhost")
             (lit "disk full | /dev/sda1")
             (Str (lit "syslog")) (Str (lit "localhost")));
        EmitAll (Str (lit "+ping"))
          (pingObject (lit "syslog|localhost")
             (Str (lit "syslog")) (Str (lit "localhost")))]).
Proof.
  assert (H : ~ In NUL (toString (Str (lit "disk full | /dev/sda1"))))
    by (apply lacks_spec; reflexivity).
  split; [exact H|].
  exact (proj1 (@syslog_message_broadcast pairChannelId quiet
                  (Str (lit "disk full | /dev/sda1")) emptyWorld H)).
Defined.

(** The syslog message ["boot\0-input|app|host1"]. *)
Lemma syslog_message_split_at_NUL_witness :
  ~ In NUL (lit "boot") /\ ~ In NUL (lit "-input|app|host1") /\
  onSyslogMessage pairChannelId quiet
    (Str (lit "boot" ++ NUL :: lit "-input|app|host1")) emptyWorld
  = forEach (processMessage pairChannelId quiet)
      [lit "+msg|syslog|localhost|boot"; lit "-input|app|host1"] emptyWorld.
Proof.
  assert (H1 : ~ In NUL (lit "boot")) by (apply lacks_spec; reflexivity).
  assert (H2 : ~ In NUL (lit "-input|app|host1"))
    by (apply lacks_spec; reflexivity).
  split; [exact H1|]. split; [exact H2|].
  exact (@syslog_message_split_at_NUL pairChannelId quiet (lit "boot")
           (lit "-input|app|host1") emptyWorld H1 H2).
Defined.

(** A browser that connects after ["+input|app|host1"]. *)
Lemma replay_follows_registry_witness :
  item (split BAR (lit "+input|app|host1")) 0 = Str (lit "+input") /\
  In (lit "+input") handlerTags /\
  In (Str (lit "+input"), appHost1)
    (replayInputs
       (inputs (snd (processMessage pairChannelId quiet
                       (lit "+input|app|host1") emptyWorld)))).
Proof.
  assert (H1 : item (split BAR (lit "+input|app|host1")) 0
               = Str (lit "+input")) by reflexivity.
  assert (H2 : In (lit "+input") handlerTags) by (right; left; reflexivity).
  split; [exact H1|]. split; [exact H2|].
  exact (proj2 (@replay_follows_registry pairChannelId quiet
                  (lit "+input|app|host1") (lit "+input") emptyWorld H1 H2)).
Defined.

(** ["+msg|app|host1|up"] and a browser that joined no room. *)
Lemma activation_selects_messages_witness :
  item (split BAR (lit "+msg|app|host1|up")) 0 = Str (lit "+msg") /\
  exists effects,
    trace (snd (processMessage pairChannelId quiet (lit "+msg|app|host1|up")
                  emptyWorld))
      = trace emptyWorld ++ effects /\
    received (onActivate (mkViewer []) (lit "app|host1")) effects
      = [(Str (lit "+msg"),
          messageObject (lit "app|host1") (lit "up") appStream host1Source);
         (Str (lit "+ping"),
          pingObject (lit "app|host1") appStream host1Source)] /\
    received (onDeactivate (mkViewer []) (lit "app|host1")) effects
      = [(Str (lit "+ping"),
          pingObject (lit "app|host1") appStream host1Source)].
Proof.
  assert (H : item (split BAR (lit "+msg|app|host1|up")) 0 = Str (lit "+msg"))
    by reflexivity.
  split; [exact H|].
  destruct (@activation_selects_messages pairChannelId quiet
              (lit "+msg|app|host1|up") emptyWorld (mkViewer []) H)
    as (effects & Htrace & Hon & Hoff & _).
  exists effects. split; [exact Htrace|]. split; [exact Hon | exact Hoff].
Defined.
